(** * Room session and state-diff translation of the momstown client

    A shallow embedding of [src/services/Network.ts]: the [Network] object,
    the room objects handed over by the Colyseus client, the listeners that
    [initialize] installs on them, and the outbound send API.

    Every method of the class is a computation in a small state-and-exception
    monad over a [World]: the fields of the [Network] instance, a heap of the
    objects it holds references to (rooms, players, tables), the suspended
    [async] calls, and the execution trace (external calls made and slots
    written, in program order). *)

From Stdlib Require Import ZArith.
From stdpp Require Import base option list strings gmap.

Local Open Scope string_scope.
Local Open Scope list_scope.
#[local] Set Warnings "-register-all".

(** ** Values crossing the boundary *)

(** JavaScript values as far as the class looks at them. Numbers are only
    passed through, never computed with. *)
Inductive JValue :=
| JUndefined
| JNull
| JBool (b : bool)
| JNum (n : Z)
| JStr (s : string)
| JObj (props : list (string * JValue)).

(** [v.k] for a property name [k] that no primitive wrapper defines (the class
    only reads [clientId], [content], [currentName] and [userId]). *)
Fixpoint assoc (k : string) (props : list (string * JValue)) : JValue :=
  match props with
  | [] => JUndefined
  | (k', v) :: rest => if String.eqb k k' then v else assoc k rest
  end.

(** Object destructuring [const { k } = v]: reading a property of [null] or
    [undefined] is a TypeError, a primitive has no such own property. *)
Definition destructure (v : JValue) (k : string) : option JValue :=
  match v with
  | JUndefined | JNull => None
  | JObj props => Some (assoc k props)
  | JBool _ | JNum _ | JStr _ => Some JUndefined
  end.

(** [v !== ""] *)
Definition strict_ne_empty (v : JValue) : bool :=
  match v with
  | JStr "" => false
  | _ => true
  end.

Definition of_opt_string (o : option string) : JValue :=
  match o with Some s => JStr s | None => JUndefined end.

Definition of_opt_bool (o : option bool) : JValue :=
  match o with Some b => JBool b | None => JUndefined end.

(** ** Enumerations imported by the class

    [types/Messages], [types/Rooms], [types/Items] and [events/EventCenter]
    declare these enums; the members below are the ones the class names. *)
Inductive Message :=
| UPDATE_PLAYER | UPDATE_PLAYER_NAME | READY_TO_CONNECT | VIDEO_CONNECTED
| DISCONNECT_STREAM | CONNECT_TO_TABLE | DISCONNECT_FROM_TABLE
| UPDATE_CHAIR_STATUS | STOP_TABLE_TALK | ADD_CHAT_MESSAGE
| SEND_DM | RECEIVE_DM | SEND_ROOM_DATA.

#[global] Instance Message_eq_dec : EqDecision Message.
Proof. solve_decision. Defined.

Inductive RoomType := LOBBY | PUBLIC | CUSTOM.

Inductive ItemType := CHAIR.

(** References into the heap of the world. *)
Abbreviation RoomId := nat (only parsing).
Abbreviation PlayerRef := nat (only parsing).
Abbreviation TableRef := nat (only parsing).

(** [phaserEvents.emit(Event.X, args...)], one constructor per event the class
    emits, with the arguments it passes. *)
Inductive BusEvent :=
| PLAYER_UPDATED (field : string) (value : JValue) (key : string)
| PLAYER_JOINED (player : PlayerRef) (key : string)
| PLAYER_LEFT (key : string)
| ITEM_USER_ADDED (item : JValue) (key : string) (itemType : ItemType)
| ITEM_USER_REMOVED (item : JValue) (key : string) (itemType : ItemType)
| UPDATE_DIALOG_BUBBLE (clientId content : JValue)
| MY_PLAYER_READY
| MY_PLAYER_VIDEO_CONNECTED.

(** Events the constructor subscribes the class's own methods to. *)
Inductive LocalEvent :=
| MY_PLAYER_NAME_CHANGE | MY_PLAYER_TEXTURE_CHANGE | PLAYER_DISCONNECTED.

(** [store.dispatch(action)] for the action creators the class imports. *)
Inductive StoreAction :=
| setSessionId (sessionId : string)
| setPlayerNameMap (id : string) (name : JValue) (userId : option string)
| removePlayerNameMap (key : string)
| setLobbyJoined (b : bool)
| setJoinedRoomData (content : JValue)
| setNumPlayer (n : nat)
| pushChatMessage (item : JValue)
| pushPlayerJoinedMessage (name : JValue)
| pushPlayerLeftMessage (name : JValue).

(** Methods of the [WebRTC] instance the class calls. *)
Inductive RTCCall :=
| deleteVideoStream (id : JValue)
| deleteOnCalledVideoStream (id : JValue).

(** Listener slots of a room's state that [initialize] and the collection
    listeners assign. *)
Inductive Slot :=
| players_onAdd_slot (rid : RoomId)
| players_onRemove_slot (rid : RoomId)
| tables_onAdd_slot (rid : RoomId)
| chatMessages_onAdd_slot (rid : RoomId)
| player_onChange_slot (player : PlayerRef)
| connectedUser_onAdd_slot (table : TableRef)
| connectedUser_onRemove_slot (table : TableRef).

(** One entry of the execution trace. *)
Inductive Action :=
| Emit (e : BusEvent)
| Dispatch (a : StoreAction)
| Send (rid : RoomId) (m : Message) (payload : JValue)
| ClientJoinOrCreate (t : RoomType)
| ClientJoinById (roomId : string) (password : JValue)
| ClientCreate (t : RoomType) (options : JValue)
| PhaserOn (e : LocalEvent)
| LobbyLeave
| ConsoleLog (args : list JValue)
| NewWebRTC (userId : option string)
| RTC (c : RTCCall)
| TableTalkOnUserLeft (clientId : JValue)
| WriteRoom (rid : RoomId)
| WriteMyUserId (userId : string)
| WriteMySessionId (sessionId : string)
| Attach (s : Slot)
| OnMessage (rid : RoomId) (m : Message)
| OnStateChange (rid : RoomId)
| Uncaught.

(** ** Objects *)

(** A player of the room state. Its other schema fields (position,
    animation) are never read by the class. [onChange] holds the [key] that
    the listener installed by [players.onAdd] has captured. *)
Record IPlayer := mkPlayer {
  name : JValue;
  onChange : option string;
}.

(** A table: the [connectedUser] array and its two listener slots, each
    holding the table key its listener has captured. *)
Record ITable := mkTable {
  connectedUser : list JValue;
  connectedUser_onAdd : option string;
  connectedUser_onRemove : option string;
}.

(** A joined room: the session id the server assigned, the replica of the
    shared state, and the listeners registered on it. The listeners of the
    four collection slots and of [onMessage]/[onStateChange] are closures over
    [this] alone, so a slot is just set or unset. *)
Record Room := mkRoom {
  sessionId : string;
  players : gmap string PlayerRef;
  tables : gmap string TableRef;
  chatMessages : list JValue;
  players_onAdd_set : bool;
  players_onRemove_set : bool;
  tables_onAdd_set : bool;
  chatMessages_onAdd_set : bool;
  messageHandlers : list Message;
  stateChangeHandlers : nat;
}.

Definition new_room (sid : string) : Room :=
  mkRoom sid ∅ ∅ [] false false false false [] 0.

#[global] Instance Room_inhabited : Inhabited Room := populate (new_room "").
#[global] Instance IPlayer_inhabited : Inhabited IPlayer :=
  populate (mkPlayer JUndefined None).
#[global] Instance ITable_inhabited : Inhabited ITable :=
  populate (mkTable [] None None).

Inductive Lobby := LobbyRoom.

Record WebRTC := mkWebRTC { rtc_userId : option string }.

(** An [async] method suspended at its [await]. *)
Inductive Pending :=
| K_joinLobbyRoom
| K_joinOrCreatePublic (userId : string)
| K_joinCustomById
| K_createCustom.

Record World := mkWorld {
  (* fields of the Network instance *)
  room : option RoomId;
  lobby : option Lobby;
  webRTC : option WebRTC;
  mySessionId : option string;
  myUserId : option string;
  (* objects it refers to *)
  rooms : list Room;
  playerObjs : list IPlayer;
  tableObjs : list ITable;
  (* the store's table slice: is a tableTalkManager present *)
  tableTalkManager : bool;
  (* suspended async calls, oldest first *)
  pending : list Pending;
  trace : list Action;
}.

Definition set_room v (w : World) : World :=
  mkWorld v (lobby w) (webRTC w) (mySessionId w) (myUserId w) (rooms w)
    (playerObjs w) (tableObjs w) (tableTalkManager w) (pending w) (trace w).
Definition set_lobby v (w : World) : World :=
  mkWorld (room w) v (webRTC w) (mySessionId w) (myUserId w) (rooms w)
    (playerObjs w) (tableObjs w) (tableTalkManager w) (pending w) (trace w).
Definition set_webRTC v (w : World) : World :=
  mkWorld (room w) (lobby w) v (mySessionId w) (myUserId w) (rooms w)
    (playerObjs w) (tableObjs w) (tableTalkManager w) (pending w) (trace w).
Definition set_mySessionId v (w : World) : World :=
  mkWorld (room w) (lobby w) (webRTC w) v (myUserId w) (rooms w)
    (playerObjs w) (tableObjs w) (tableTalkManager w) (pending w) (trace w).
Definition set_myUserId v (w : World) : World :=
  mkWorld (room w) (lobby w) (webRTC w) (mySessionId w) v (rooms w)
    (playerObjs w) (tableObjs w) (tableTalkManager w) (pending w) (trace w).
Definition set_rooms v (w : World) : World :=
  mkWorld (room w) (lobby w) (webRTC w) (mySessionId w) (myUserId w) v
    (playerObjs w) (tableObjs w) (tableTalkManager w) (pending w) (trace w).
Definition set_playerObjs v (w : World) : World :=
  mkWorld (room w) (lobby w) (webRTC w) (mySessionId w) (myUserId w) (rooms w)
    v (tableObjs w) (tableTalkManager w) (pending w) (trace w).
Definition set_tableObjs v (w : World) : World :=
  mkWorld (room w) (lobby w) (webRTC w) (mySessionId w) (myUserId w) (rooms w)
    (playerObjs w) v (tableTalkManager w) (pending w) (trace w).
Definition set_pending v (w : World) : World :=
  mkWorld (room w) (lobby w) (webRTC w) (mySessionId w) (myUserId w) (rooms w)
    (playerObjs w) (tableObjs w) (tableTalkManager w) v (trace w).
Definition set_trace v (w : World) : World :=
  mkWorld (room w) (lobby w) (webRTC w) (mySessionId w) (myUserId w) (rooms w)
    (playerObjs w) (tableObjs w) (tableTalkManager w) (pending w) v.

Definition set_players v (r : Room) : Room :=
  mkRoom (sessionId r) v (tables r) (chatMessages r) (players_onAdd_set r)
    (players_onRemove_set r) (tables_onAdd_set r) (chatMessages_onAdd_set r)
    (messageHandlers r) (stateChangeHandlers r).
Definition set_tables v (r : Room) : Room :=
  mkRoom (sessionId r) (players r) v (chatMessages r) (players_onAdd_set r)
    (players_onRemove_set r) (tables_onAdd_set r) (chatMessages_onAdd_set r)
    (messageHandlers r) (stateChangeHandlers r).
Definition set_chatMessages v (r : Room) : Room :=
  mkRoom (sessionId r) (players r) (tables r) v (players_onAdd_set r)
    (players_onRemove_set r) (tables_onAdd_set r) (chatMessages_onAdd_set r)
    (messageHandlers r) (stateChangeHandlers r).
Definition set_players_onAdd (r : Room) : Room :=
  mkRoom (sessionId r) (players r) (tables r) (chatMessages r) true
    (players_onRemove_set r) (tables_onAdd_set r) (chatMessages_onAdd_set r)
    (messageHandlers r) (stateChangeHandlers r).
Definition set_players_onRemove (r : Room) : Room :=
  mkRoom (sessionId r) (players r) (tables r) (chatMessages r)
    (players_onAdd_set r) true (tables_onAdd_set r) (chatMessages_onAdd_set r)
    (messageHandlers r) (stateChangeHandlers r).
Definition set_tables_onAdd (r : Room) : Room :=
  mkRoom (sessionId r) (players r) (tables r) (chatMessages r)
    (players_onAdd_set r) (players_onRemove_set r) true
    (chatMessages_onAdd_set r) (messageHandlers r) (stateChangeHandlers r).
Definition set_chatMessages_onAdd (r : Room) : Room :=
  mkRoom (sessionId r) (players r) (tables r) (chatMessages r)
    (players_onAdd_set r) (players_onRemove_set r) (tables_onAdd_set r) true
    (messageHandlers r) (stateChangeHandlers r).
Definition add_messageHandler (m : Message) (r : Room) : Room :=
  mkRoom (sessionId r) (players r) (tables r) (chatMessages r)
    (players_onAdd_set r) (players_onRemove_set r) (tables_onAdd_set r)
    (chatMessages_onAdd_set r) (messageHandlers r ++ [m])
    (stateChangeHandlers r).
Definition add_stateChangeHandler (r : Room) : Room :=
  mkRoom (sessionId r) (players r) (tables r) (chatMessages r)
    (players_onAdd_set r) (players_onRemove_set r) (tables_onAdd_set r)
    (chatMessages_onAdd_set r) (messageHandlers r)
    (S (stateChangeHandlers r)).

(** ** The monad *)

Inductive Exn := TypeError | Rejected.

Inductive Res (A : Type) :=
| Ret (a : A) (w : World)
| Throw (e : Exn) (w : World).
Arguments Ret {A} a w.
Arguments Throw {A} e w.

Definition M (A : Type) : Type := World → Res A.

Definition world_of {A} (r : Res A) : World :=
  match r with Ret _ w => w | Throw _ w => w end.

Definition returns {A} (r : Res A) : bool :=
  match r with Ret _ _ => true | Throw _ _ => false end.

#[global] Instance M_ret : MRet M := λ A a w, Ret a w.
#[global] Instance M_bind : MBind M := λ A B k m w,
  match m w with
  | Ret a w' => k a w'
  | Throw e w' => Throw e w'
  end.

Definition get : M World := λ w, Ret w w.
Definition gets {A} (f : World → A) : M A := λ w, Ret (f w) w.
Definition modify (f : World → World) : M unit := λ w, Ret tt (f w).
Definition throw {A} (e : Exn) : M A := λ w, Throw e w.

(** Appends one entry to the execution trace. *)
Definition act (a : Action) : M unit :=
  modify (λ w, set_trace (trace w ++ [a]) w).

Definition emit (e : BusEvent) : M unit := act (Emit e).
Definition dispatch (a : StoreAction) : M unit := act (Dispatch a).
Definition console_log (args : list JValue) : M unit := act (ConsoleLog args).

Fixpoint forEach {A} (l : list A) (f : A → M unit) : M unit :=
  match l with
  | [] => mret tt
  | x :: rest => f x ;; forEach rest f
  end.

Definition modify_room (rid : RoomId) (f : Room → Room) : M unit :=
  modify (λ w, set_rooms (alter f rid (rooms w)) w).
Definition modify_player (p : PlayerRef) (f : IPlayer → IPlayer) : M unit :=
  modify (λ w, set_playerObjs (alter f p (playerObjs w)) w).
Definition modify_table (t : TableRef) (f : ITable → ITable) : M unit :=
  modify (λ w, set_tableObjs (alter f t (tableObjs w)) w).

(** ** The class [Network] *)

Module Network.

(** One [{ field, value }] entry of a schema change notification. *)
Record Change := mkChange { field : string; value : JValue }.

Definition suspend (k : Pending) : M unit :=
  modify (λ w, set_pending (pending w ++ [k]) w).

(** [this.room?.send(m, payload)] *)
Definition room_send (m : Message) (payload : JValue) : M unit :=
  r ← gets room;
  match r with
  | Some rid => act (Send rid m payload)
  | None => mret tt
  end.

(** [this.webRTC?.c] *)
Definition rtc (c : RTCCall) : M unit :=
  o ← gets webRTC;
  match o with
  | Some _ => act (RTC c)
  | None => mret tt
  end.

(** [this.lobby.leave()]: [lobby] is declared definitely assigned, but holds
    [undefined] until [joinLobbyRoom] has resumed. *)
Definition lobby_leave : M unit :=
  l ← gets lobby;
  match l with
  | Some LobbyRoom => act LobbyLeave
  | None => throw TypeError
  end.

(** *** Listeners installed by [initialize] *)

(** [player.onChange = (changes) => { changes.forEach(...) }], the closure
    created in [players.onAdd] for [player] and [key]. *)
Definition player_onChange (player : PlayerRef) (key : string)
    (changes : list Change) : M unit :=
  forEach changes (λ change,
    emit (PLAYER_UPDATED (field change) (value change) key) ;;
    if String.eqb (field change) "name" && strict_ne_empty (value change) then
      emit (PLAYER_JOINED player key) ;;
      u ← gets myUserId;
      dispatch (setPlayerNameMap key (value change) u) ;;
      dispatch (pushPlayerJoinedMessage (value change))
    else mret tt).

(** [this.room.state.players.onAdd = (player, key) => ...] *)
Definition players_onAdd (player : PlayerRef) (key : string) : M unit :=
  me ← gets mySessionId;
  if decide (me = Some key) then mret tt
  else
    modify_player player (λ p, mkPlayer (name p) (Some key)) ;;
    act (Attach (player_onChange_slot player)).

(** [this.room.state.players.onRemove = (player, key) => ...] *)
Definition players_onRemove (player : PlayerRef) (key : string) : M unit :=
  emit (PLAYER_LEFT key) ;;
  rtc (deleteVideoStream (JStr key)) ;;
  rtc (deleteOnCalledVideoStream (JStr key)) ;;
  n ← gets (λ w, name (playerObjs w !!! player));
  dispatch (pushPlayerLeftMessage n) ;;
  dispatch (removePlayerNameMap key).

(** [table.connectedUser.onAdd = (item, index) => ...] for the table [key]. *)
Definition connectedUser_onAdd_listener (key : string) (item : JValue)
    (index : nat) : M unit :=
  emit (ITEM_USER_ADDED item key CHAIR).

Definition connectedUser_onRemove_listener (key : string) (item : JValue)
    (index : nat) : M unit :=
  emit (ITEM_USER_REMOVED item key CHAIR).

(** [this.room.state.tables.onAdd = (table, key) => ...] *)
Definition tables_onAdd (table : TableRef) (key : string) : M unit :=
  modify_table table
    (λ t, mkTable (connectedUser t) (Some key) (connectedUser_onRemove t)) ;;
  act (Attach (connectedUser_onAdd_slot table)) ;;
  modify_table table
    (λ t, mkTable (connectedUser t) (connectedUser_onAdd t) (Some key)) ;;
  act (Attach (connectedUser_onRemove_slot table)).

(** [this.room.state.chatMessages.onAdd = (item, index) => ...] *)
Definition chatMessages_onAdd (item : JValue) (index : nat) : M unit :=
  dispatch (pushChatMessage item).

(** The callbacks passed to [this.room.onMessage]. *)
Definition on_SEND_ROOM_DATA (content : JValue) : M unit :=
  dispatch (setJoinedRoomData content).

Definition on_ADD_CHAT_MESSAGE (payload : JValue) : M unit :=
  match destructure payload "clientId", destructure payload "content" with
  | Some clientId, Some content => emit (UPDATE_DIALOG_BUBBLE clientId content)
  | _, _ => throw TypeError
  end.

Definition on_DISCONNECT_STREAM (clientId : JValue) : M unit :=
  rtc (deleteOnCalledVideoStream clientId).

(** [store.getState().table.tableTalkManager?.onUserLeft(clientId)] *)
Definition on_STOP_TABLE_TALK (clientId : JValue) : M unit :=
  present ← gets tableTalkManager;
  if present : bool then act (TableTalkOnUserLeft clientId) else mret tt.

Definition on_RECEIVE_DM (content : JValue) : M unit :=
  console_log [content].

(** The callback passed to [this.room.onStateChange]. *)
Definition on_stateChange : M unit :=
  r ← gets room;
  match r with
  | None => mret tt
  | Some rid =>
      numPlayers ← gets (λ w, size (players (rooms w !!! rid)));
      dispatch (setNumPlayer numPlayers)
  end.

(** *** [initialize] *)

Definition attach_room (rid : RoomId) (f : Room → Room) (s : Slot) : M unit :=
  modify_room rid f ;; act (Attach s).

Definition room_onMessage (rid : RoomId) (m : Message) : M unit :=
  modify_room rid (add_messageHandler m) ;; act (OnMessage rid m).

Definition room_onStateChange (rid : RoomId) : M unit :=
  modify_room rid add_stateChangeHandler ;; act (OnStateChange rid).

Definition initialize : M unit :=
  r ← gets room;
  match r with
  | None => mret tt
  | Some rid =>
      lobby_leave ;;
      sid ← gets (λ w, sessionId (rooms w !!! rid));
      modify (set_mySessionId (Some sid)) ;;
      act (WriteMySessionId sid) ;;
      me ← gets mySessionId;
      console_log [JStr "mySessionId"; of_opt_string me] ;;
      u ← gets myUserId;
      console_log [JStr "myUserId"; of_opt_string u] ;;
      sid' ← gets (λ w, sessionId (rooms w !!! rid));
      dispatch (setSessionId sid') ;;
      me' ← gets mySessionId;
      act (NewWebRTC me') ;;
      modify (set_webRTC (Some (mkWebRTC me'))) ;;
      attach_room rid set_players_onAdd (players_onAdd_slot rid) ;;
      attach_room rid set_players_onRemove (players_onRemove_slot rid) ;;
      attach_room rid set_tables_onAdd (tables_onAdd_slot rid) ;;
      attach_room rid set_chatMessages_onAdd (chatMessages_onAdd_slot rid) ;;
      room_onMessage rid SEND_ROOM_DATA ;;
      room_onMessage rid ADD_CHAT_MESSAGE ;;
      room_onMessage rid DISCONNECT_STREAM ;;
      room_onMessage rid STOP_TABLE_TALK ;;
      room_onMessage rid RECEIVE_DM ;;
      room_onStateChange rid
  end.

(** *** Joining

    Each [async] method runs up to its [await] when called and is resumed
    with the room the client resolved to, or rejects. *)

Definition joinLobbyRoom : M unit :=
  act (ClientJoinOrCreate LOBBY) ;; suspend K_joinLobbyRoom.

Definition joinLobbyRoom_resume : M unit :=
  modify (set_lobby (Some LobbyRoom)).

Definition joinOrCreatePublic (userId : string) : M unit :=
  act (ClientJoinOrCreate PUBLIC) ;; suspend (K_joinOrCreatePublic userId).

Definition joinOrCreatePublic_resume (userId : string) (rid : RoomId)
    : M unit :=
  modify (set_room (Some rid)) ;;
  act (WriteRoom rid) ;;
  modify (set_myUserId (Some userId)) ;;
  act (WriteMyUserId userId) ;;
  initialize.

Definition joinCustomById (roomId : string) (password : option string)
    : M unit :=
  act (ClientJoinById roomId
         (JObj [("password", match password with
                             | Some p => JStr p
                             | None => JNull
                             end)])) ;;
  suspend K_joinCustomById.

Definition joinCustomById_resume (rid : RoomId) : M unit :=
  modify (set_room (Some rid)) ;;
  act (WriteRoom rid) ;;
  initialize.

(** [roomData] is destructured into [name], [description], [password] and
    [autoDispose] before the call. *)
Definition createCustom (roomData : JValue) : M unit :=
  match destructure roomData "name", destructure roomData "description",
        destructure roomData "password", destructure roomData "autoDispose"
  with
  | Some n, Some d, Some p, Some a =>
      act (ClientCreate CUSTOM
             (JObj [("name", n); ("description", d); ("password", p);
                    ("autoDispose", a)])) ;;
      suspend K_createCustom
  | _, _, _, _ => throw TypeError
  end.

Definition createCustom_resume (rid : RoomId) : M unit :=
  modify (set_room (Some rid)) ;;
  act (WriteRoom rid) ;;
  initialize.

(** The constructor: starts joining the lobby and subscribes three methods to
    the local event bus. *)
Definition constructor : M unit :=
  joinLobbyRoom ;;
  act (PhaserOn MY_PLAYER_NAME_CHANGE) ;;
  act (PhaserOn MY_PLAYER_TEXTURE_CHANGE) ;;
  act (PhaserOn PLAYER_DISCONNECTED).

(** *** Outbound API *)

Definition updatePlayer (currentX currentY : Z) (currentAnim : string)
    : M unit :=
  room_send UPDATE_PLAYER
    (JObj [("x", JNum currentX); ("y", JNum currentY);
           ("anim", JStr currentAnim)]).

Definition updatePlayerName (message : JValue) : M unit :=
  match destructure message "currentName", destructure message "userId" with
  | Some currentName, Some userId =>
      console_log [JStr "updatePlayerName"; message] ;;
      console_log [userId] ;;
      room_send UPDATE_PLAYER_NAME
        (JObj [("name", currentName); ("userId", userId)])
  | _, _ => throw TypeError
  end.

Definition readyToConnect : M unit :=
  room_send READY_TO_CONNECT JUndefined ;;
  emit MY_PLAYER_READY.

Definition videoConnected : M unit :=
  room_send VIDEO_CONNECTED JUndefined ;;
  emit MY_PLAYER_VIDEO_CONNECTED.

Definition playerStreamDisconnect (id : string) : M unit :=
  room_send DISCONNECT_STREAM (JObj [("clientId", JStr id)]) ;;
  rtc (deleteVideoStream (JStr id)).

Definition connectToTable (id : string) : M unit :=
  room_send CONNECT_TO_TABLE (JObj [("tableId", JStr id)]).

Definition updateChairStatus (tableId chairId : option string)
    (status : option bool) : M unit :=
  room_send UPDATE_CHAIR_STATUS
    (JObj [("tableId", of_opt_string tableId);
           ("chairId", of_opt_string chairId);
           ("status", of_opt_bool status)]).

Definition disconnectFromTable (id : string) : M unit :=
  room_send DISCONNECT_FROM_TABLE (JObj [("tableId", JStr id)]).

Definition onStopTableTalk (id : string) : M unit :=
  room_send STOP_TABLE_TALK (JObj [("tableId", JStr id)]).

Definition addChatMessage (content : string) : M unit :=
  room_send ADD_CHAT_MESSAGE (JObj [("content", JStr content)]).

Definition checkPrivateMessage (sender : string) : M unit :=
  room_send RECEIVE_DM (JObj [("sender", JStr sender)]).

Definition sendPrivateMessage (sender receiver content : string) : M unit :=
  room_send SEND_DM
    (JObj [("sender", JStr sender); ("receiver", JStr receiver);
           ("content", JStr content)]) ;;
  checkPrivateMessage receiver.

End Network.

(** ** The environment of the class

    What calls into the class: the Colyseus client, which keeps the replica of
    a room's state up to date and invokes the listener found in a slot after
    it has applied a change, and the JavaScript job queue, which resumes a
    suspended [async] method when its promise settles. *)

Module Runtime.
Import Network.

Inductive Notification :=
| players_add (key : string) (name0 : JValue)
| player_change (key : string) (changes : list Change)
| players_remove (key : string)
| tables_add (key : string)
| connectedUser_add (table_key : string) (item : JValue)
| connectedUser_remove (table_key : string) (index : nat)
| chatMessages_add (item : JValue)
| inbound (m : Message) (payload : JValue)
| stateChange.

(** The new value of [name] after a batch of field changes. *)
Definition apply_changes (changes : list Change) (p : IPlayer) : IPlayer :=
  foldl (λ p c, if String.eqb (field c) "name"
                then mkPlayer (value c) (onChange p) else p) p changes.

(** The callback registered for a message type. *)
Definition message_callback (m : Message) (payload : JValue) : M unit :=
  match m with
  | SEND_ROOM_DATA => on_SEND_ROOM_DATA payload
  | ADD_CHAT_MESSAGE => on_ADD_CHAT_MESSAGE payload
  | DISCONNECT_STREAM => on_DISCONNECT_STREAM payload
  | STOP_TABLE_TALK => on_STOP_TABLE_TALK payload
  | RECEIVE_DM => on_RECEIVE_DM payload
  | _ => mret tt
  end.

Fixpoint times (n : nat) (m : M unit) : M unit :=
  match n with
  | 0 => mret tt
  | S n' => m ;; times n' m
  end.

(** Delivery of one notification to the room [rid]. *)
Definition deliver (rid : RoomId) (n : Notification) : M unit :=
  r ← gets (λ w, rooms w !!! rid);
  match n with
  | players_add key name0 =>
      player ← gets (λ w, length (playerObjs w));
      modify (λ w, set_playerObjs (playerObjs w ++ [mkPlayer name0 None]) w) ;;
      modify_room rid (λ r, set_players (<[key := player]> (players r)) r) ;;
      if players_onAdd_set r then players_onAdd player key else mret tt
  | player_change key changes =>
      match players r !! key with
      | None => mret tt
      | Some player =>
          modify_player player (apply_changes changes) ;;
          listener ← gets (λ w, onChange (playerObjs w !!! player));
          match listener with
          | Some captured => player_onChange player captured changes
          | None => mret tt
          end
      end
  | players_remove key =>
      match players r !! key with
      | None => mret tt
      | Some player =>
          modify_room rid (λ r, set_players (delete key (players r)) r) ;;
          if players_onRemove_set r then players_onRemove player key
          else mret tt
      end
  | tables_add key =>
      table ← gets (λ w, length (tableObjs w));
      modify (λ w, set_tableObjs (tableObjs w ++ [mkTable [] None None]) w) ;;
      modify_room rid (λ r, set_tables (<[key := table]> (tables r)) r) ;;
      if tables_onAdd_set r then tables_onAdd table key else mret tt
  | connectedUser_add table_key item =>
      match tables r !! table_key with
      | None => mret tt
      | Some table =>
          t ← gets (λ w, tableObjs w !!! table);
          modify_table table
            (λ t, mkTable (connectedUser t ++ [item]) (connectedUser_onAdd t)
                    (connectedUser_onRemove t)) ;;
          match connectedUser_onAdd t with
          | Some captured =>
              connectedUser_onAdd_listener captured item
                (length (connectedUser t))
          | None => mret tt
          end
      end
  | connectedUser_remove table_key index =>
      match tables r !! table_key with
      | None => mret tt
      | Some table =>
          t ← gets (λ w, tableObjs w !!! table);
          match connectedUser t !! index with
          | None => mret tt
          | Some item =>
              modify_table table
                (λ t, mkTable (delete index (connectedUser t))
                        (connectedUser_onAdd t) (connectedUser_onRemove t)) ;;
              match connectedUser_onRemove t with
              | Some captured =>
                  connectedUser_onRemove_listener captured item index
              | None => mret tt
              end
          end
      end
  | chatMessages_add item =>
      modify_room rid
        (λ r, set_chatMessages (chatMessages r ++ [item]) r) ;;
      if chatMessages_onAdd_set r
      then chatMessages_onAdd item (length (chatMessages r))
      else mret tt
  | inbound m payload =>
      forEach (filter (λ m', m' = m) (messageHandlers r))
        (λ m', message_callback m' payload)
  | stateChange =>
      times (stateChangeHandlers r) on_stateChange
  end.

(** How a pending promise settles: with a new room carrying the session id
    the server assigned, or by rejection. *)
Inductive Settled := Fulfilled (sid : string) | Reject.

Definition alloc_room (sid : string) : M RoomId :=
  rid ← gets (λ w, length (rooms w));
  modify (λ w, set_rooms (rooms w ++ [new_room sid]) w) ;;
  mret rid.

Definition resume (k : Pending) (s : Settled) : M unit :=
  match s with
  | Reject => throw Rejected
  | Fulfilled sid =>
      match k with
      | K_joinLobbyRoom =>
          joinLobbyRoom_resume ;; dispatch (setLobbyJoined true)
      | K_joinOrCreatePublic userId =>
          rid ← alloc_room sid; joinOrCreatePublic_resume userId rid
      | K_joinCustomById =>
          rid ← alloc_room sid; joinCustomById_resume rid
      | K_createCustom =>
          rid ← alloc_room sid; createCustom_resume rid
      end
  end.

(** Calls made by the application. *)
Inductive Call :=
| call_joinOrCreatePublic (userId : string)
| call_joinCustomById (roomId : string) (password : option string)
| call_createCustom (roomData : JValue)
| call_updatePlayer (currentX currentY : Z) (currentAnim : string)
| call_updatePlayerName (message : JValue)
| call_readyToConnect
| call_videoConnected
| call_playerStreamDisconnect (id : string)
| call_connectToTable (id : string)
| call_updateChairStatus (tableId chairId : option string)
    (status : option bool)
| call_disconnectFromTable (id : string)
| call_onStopTableTalk (id : string)
| call_addChatMessage (content : string)
| call_sendPrivateMessage (sender receiver content : string)
| call_checkPrivateMessage (sender : string).

Definition invoke (c : Call) : M unit :=
  match c with
  | call_joinOrCreatePublic userId => joinOrCreatePublic userId
  | call_joinCustomById roomId password => joinCustomById roomId password
  | call_createCustom roomData => createCustom roomData
  | call_updatePlayer x y anim => updatePlayer x y anim
  | call_updatePlayerName message => updatePlayerName message
  | call_readyToConnect => readyToConnect
  | call_videoConnected => videoConnected
  | call_playerStreamDisconnect id => playerStreamDisconnect id
  | call_connectToTable id => connectToTable id
  | call_updateChairStatus t c s => updateChairStatus t c s
  | call_disconnectFromTable id => disconnectFromTable id
  | call_onStopTableTalk id => onStopTableTalk id
  | call_addChatMessage content => addChatMessage content
  | call_sendPrivateMessage s r c => sendPrivateMessage s r c
  | call_checkPrivateMessage s => checkPrivateMessage s
  end.

Inductive Step :=
| Invoke (c : Call)
| Settle (i : nat) (s : Settled)
| Notify (rid : RoomId) (n : Notification)
| StoreTableTalkManager (present : bool).

Definition set_tableTalkManager (b : bool) (w : World) : World :=
  mkWorld (room w) (lobby w) (webRTC w) (mySessionId w) (myUserId w) (rooms w)
    (playerObjs w) (tableObjs w) b (pending w) (trace w).

Definition step_body (s : Step) : M unit :=
  match s with
  | Invoke c => invoke c
  | Settle i s =>
      ks ← gets pending;
      match ks !! i with
      | None => mret tt
      | Some k => modify (set_pending (delete i ks)) ;; resume k s
      end
  | Notify rid n =>
      rs ← gets rooms;
      if decide (rid < length rs) then deliver rid n else mret tt
  | StoreTableTalkManager b => modify (set_tableTalkManager b)
  end.

(** One turn of the event loop; an exception that escapes the turn is
    reported and the loop goes on. *)
Definition step (w : World) (s : Step) : World :=
  match step_body s w with
  | Ret _ w' => w'
  | Throw _ w' => set_trace (trace w' ++ [Uncaught]) w'
  end.

Definition run (w : World) (steps : list Step) : World := foldl step w steps.

Definition empty_world : World :=
  mkWorld None None None None None [] [] [] false [] [].

(** The world after [new Network()]. *)
Definition boot : World := world_of (constructor empty_world).

Definition reachable (w : World) : Prop := ∃ steps, w = run boot steps.

(** The part of the trace of [w'] that was added after [w]. *)
Definition since (w w' : World) : list Action :=
  drop (length (trace w)) (trace w').

End Runtime.

(** ** Observations on traces and worlds *)

Module Obs.
Import Network Runtime.

(** Outbound messages, bus events and store actions of a trace, in order. *)
Definition sent (t : list Action) : list (RoomId * Message * JValue) :=
  omap (λ a, match a with Send rid m p => Some (rid, m, p) | _ => None end) t.

Definition bus (t : list Action) : list BusEvent :=
  omap (λ a, match a with Emit e => Some e | _ => None end) t.

Definition is_joined (e : BusEvent) : bool :=
  match e with PLAYER_JOINED _ _ => true | _ => false end.

Definition is_left (e : BusEvent) : bool :=
  match e with PLAYER_LEFT _ => true | _ => false end.

Definition is_updated (e : BusEvent) : bool :=
  match e with PLAYER_UPDATED _ _ _ => true | _ => false end.

Definition joined_for (key : string) (e : BusEvent) : bool :=
  match e with PLAYER_JOINED _ k => String.eqb k key | _ => false end.

Definition count_joined (t : list Action) : nat :=
  length (filter is_joined (bus t)).

Definition count_left (t : list Action) : nat :=
  length (filter is_left (bus t)).

Definition count_joined_for (key : string) (t : list Action) : nat :=
  length (filter (joined_for key) (bus t)).

(** A changed-field entry that sets [name] to something other than the
    empty string. *)
Definition sets_name (c : Change) : Prop :=
  field c = "name" ∧ value c ≠ JStr "".

#[global] Instance JValue_is_empty_string_dec v : Decision (v = JStr "").
Proof.
  refine (match v with
          | JStr s => cast_if (decide (s = ""))
          | _ => right _
          end); congruence.
Defined.

#[global] Instance sets_name_dec c : Decision (sets_name c).
Proof. unfold sets_name. apply _. Defined.

(** What the change listener of [player], installed for [key], does for one
    changed-field entry: the generic update first, then, for a non-empty
    name, the join event and the two store actions. *)
Definition entry_actions (player : PlayerRef) (key : string)
    (userId : option string) (c : Change) : list Action :=
  Emit (PLAYER_UPDATED (field c) (value c) key)
  :: (if decide (sets_name c)
      then [Emit (PLAYER_JOINED player key);
            Dispatch (setPlayerNameMap key (value c) userId);
            Dispatch (pushPlayerJoinedMessage (value c))]
      else []).

(** The bus events among them. *)
Definition entry_events (player : PlayerRef) (key : string) (c : Change)
    : list BusEvent :=
  PLAYER_UPDATED (field c) (value c) key
  :: (if decide (sets_name c) then [PLAYER_JOINED player key] else []).

(** [null] and [undefined], the two values that cannot be destructured. *)
Definition nullish (v : JValue) : bool :=
  match v with JUndefined | JNull => true | _ => false end.

(** The calls of the outbound send API (the three join calls apart). *)
Definition is_send_call (c : Call) : bool :=
  match c with
  | call_joinOrCreatePublic _ | call_joinCustomById _ _
  | call_createCustom _ => false
  | _ => true
  end.

(** The argument of a name update can be destructured. *)
Definition destructurable (c : Call) : bool :=
  match c with
  | call_updatePlayerName message => negb (nullish message)
  | _ => true
  end.


(** *** Notifications as the listeners of the players collection see them *)

Inductive PlayersNotification :=
| Added (player : PlayerRef) (key : string)
| Removed (player : PlayerRef) (key : string).

Definition translate (n : PlayersNotification) : M unit :=
  match n with
  | Added player key => players_onAdd player key
  | Removed player key => players_onRemove player key
  end.

Definition notification_key (n : PlayersNotification) : string :=
  match n with Added _ key | Removed _ key => key end.

Definition is_add (n : PlayersNotification) : bool :=
  match n with Added _ _ => true | Removed _ _ => false end.

Definition removed_keys (ns : list PlayersNotification) : list string :=
  omap (λ n, match n with Removed _ key => Some key | Added _ _ => None end)
    ns.

(** The number of add operations, and of remove operations, whose key is not
    the local session id. *)
Definition remote_adds (me : string) (ns : list PlayersNotification) : nat :=
  length (filter (λ n, is_add n = true ∧ notification_key n ≠ me) ns).

Definition remote_removes (me : string) (ns : list PlayersNotification)
    : nat :=
  length (filter (λ n, is_add n = false ∧ notification_key n ≠ me) ns).

(** *** Listeners and identity *)

Definition room_listening (r : Room) : bool :=
  players_onAdd_set r || players_onRemove_set r || tables_onAdd_set r
  || chatMessages_onAdd_set r || bool_decide (messageHandlers r ≠ [])
  || bool_decide (0 < stateChangeHandlers r).

Definition player_listening (p : IPlayer) : bool :=
  bool_decide (is_Some (onChange p)).

Definition table_listening (t : ITable) : bool :=
  bool_decide (is_Some (connectedUser_onAdd t))
  || bool_decide (is_Some (connectedUser_onRemove t)).

(** Some listener of the class is installed somewhere. *)
Definition has_listener (w : World) : bool :=
  existsb room_listening (rooms w) || existsb player_listening (playerObjs w)
  || existsb table_listening (tableObjs w).

(** No listener of the class is installed anywhere. *)
Definition pristine (w : World) : Prop :=
  Forall (λ r, room_listening r = false) (rooms w)
  ∧ Forall (λ p, player_listening p = false) (playerObjs w)
  ∧ Forall (λ t, table_listening t = false) (tableObjs w).

(** The session identity is known: the fields that [initialize] sets before
    it registers anything. *)
Definition identified (w : World) : Prop :=
  is_Some (lobby w) ∧ is_Some (mySessionId w) ∧ is_Some (webRTC w)
  ∧ ∃ rid, room w = Some rid ∧ rid < length (rooms w).

Definition room_ok (w : World) : Prop :=
  ∀ rid, room w = Some rid → rid < length (rooms w).

(** No listener is installed and the active room, if any, exists. *)
Definition quiet (w : World) : Prop := room_ok w ∧ pristine w.

Definition Inv (w : World) : Prop :=
  room_ok w ∧ (pristine w ∨ identified w).

(** *** The effect of [initialize] *)

(** What a completed [initialize] adds to the trace, for the active room
    [rid] with session id [sid]. *)
Definition init_trace (rid : RoomId) (sid : string) (userId : option string)
    : list Action :=
  [LobbyLeave;
   WriteMySessionId sid;
   ConsoleLog [JStr "mySessionId"; JStr sid];
   ConsoleLog [JStr "myUserId"; of_opt_string userId];
   Dispatch (setSessionId sid);
   NewWebRTC (Some sid);
   Attach (players_onAdd_slot rid);
   Attach (players_onRemove_slot rid);
   Attach (tables_onAdd_slot rid);
   Attach (chatMessages_onAdd_slot rid);
   OnMessage rid SEND_ROOM_DATA;
   OnMessage rid ADD_CHAT_MESSAGE;
   OnMessage rid DISCONNECT_STREAM;
   OnMessage rid STOP_TABLE_TALK;
   OnMessage rid RECEIVE_DM;
   OnStateChange rid].

(** And what it does to the room. *)
Definition init_room (r : Room) : Room :=
  mkRoom (sessionId r) (players r) (tables r) (chatMessages r)
    true true true true
    (messageHandlers r
     ++ [SEND_ROOM_DATA; ADD_CHAT_MESSAGE; DISCONNECT_STREAM;
         STOP_TABLE_TALK; RECEIVE_DM])
    (S (stateChangeHandlers r)).

Definition initialized (rid : RoomId) (w : World) : World :=
  let sid := sessionId (rooms w !!! rid) in
  mkWorld (room w) (lobby w) (Some (mkWebRTC (Some sid))) (Some sid)
    (myUserId w) (alter init_room rid (rooms w)) (playerObjs w) (tableObjs w)
    (tableTalkManager w) (pending w)
    (trace w ++ init_trace rid sid (myUserId w)).

(** The world with its trace put aside: the session itself. *)
Definition session (w : World) : World := set_trace [] w.

(** The chat-broadcast handler is the one that destructures its payload. *)
Definition is_chat (m : Message) : bool :=
  match m with ADD_CHAT_MESSAGE => true | _ => false end.

(** [v.k], [undefined] when [v] has no such property. *)
Definition prop (v : JValue) (k : string) : JValue :=
  default JUndefined (destructure v k).

(** A computation keeps a property of the world, whether it returns or
    raises. *)
Definition preserves {A} (P : World → Prop) (m : M A) : Prop :=
  ∀ w, P w → P (world_of (m w)).

(** The listeners registered on a room. *)
Definition handlers_of (r : Room) :=
  (players_onAdd_set r, players_onRemove_set r, tables_onAdd_set r,
   chatMessages_onAdd_set r, messageHandlers r, stateChangeHandlers r).

(** A room carries the listeners of no [initialize], or of exactly one. *)
Definition initialised_once (r : Room) : Prop :=
  handlers_of r = handlers_of (new_room "")
  ∨ handlers_of r = handlers_of (init_room (new_room "")).

Definition rooms_once (w : World) : Prop :=
  Forall initialised_once (rooms w).

(** A session is discarded: it is not the active one and no notification of
    its room has any effect. *)
Definition discarded (w : World) (rid : RoomId) : Prop :=
  room w ≠ Some rid ∧ ∀ n, since w (step w (Notify rid n)) = [].

(** *** What the listeners of the players collection do *)

(** The change listener installed on a player for [key]. *)
Definition attach_listener (key : string) (p : IPlayer) : IPlayer :=
  mkPlayer (name p) (Some key).

(** The player objects after a notification: an add whose key is not the
    local session id [me] attaches the change listener to the player added,
    an add of the local player and a remove attach nothing. *)
Definition listened (me : option string) (objs : list IPlayer)
    (n : PlayersNotification) : list IPlayer :=
  match n with
  | Added player key =>
      if decide (me = Some key) then objs
      else alter (attach_listener key) player objs
  | Removed _ _ => objs
  end.

(** The trace entries of a notification, in the world [w] the sequence
    starts from. *)
Definition notification_actions (w : World) (n : PlayersNotification)
    : list Action :=
  match n with
  | Added player key =>
      if decide (mySessionId w = Some key) then []
      else [Attach (player_onChange_slot player)]
  | Removed player key =>
      Emit (PLAYER_LEFT key)
      :: match webRTC w with
         | Some _ =>
             [RTC (deleteVideoStream (JStr key));
              RTC (deleteOnCalledVideoStream (JStr key))]
         | None => []
         end
      ++ [Dispatch (pushPlayerLeftMessage (name (playerObjs w !!! player)));
          Dispatch (removePlayerNameMap key)]
  end.

(** *** Joins *)

(** The continuation a join call suspends, if it gets as far as its
    [await]. *)
Definition join_continuation (c : Call) : option Pending :=
  match c with
  | call_joinOrCreatePublic userId => Some (K_joinOrCreatePublic userId)
  | call_joinCustomById _ _ => Some K_joinCustomById
  | call_createCustom roomData =>
      if nullish roomData then None else Some K_createCustom
  | _ => None
  end.

(** The continuations that resume with a room to join. *)
Definition is_room_join (k : Pending) : bool :=
  match k with K_joinLobbyRoom => false | _ => true end.

(** [myUserId] after the continuation has resumed: only a public join
    records one. *)
Definition recorded_user (k : Pending) (previous : option string)
    : option string :=
  match k with
  | K_joinOrCreatePublic userId => Some userId
  | _ => previous
  end.

End Obs.

(** ** Scenarios *)

Module Scenarios.
Import Network Runtime.

(** The lobby is joined, then the public room as user [u1]; the server
    assigns the session id [s1]. *)
Definition join_as_s1 : list Step :=
  [Settle 0 (Fulfilled "lobby");
   Invoke (call_joinOrCreatePublic "u1");
   Settle 0 (Fulfilled "s1")].

Definition joined_world : World := run boot join_as_s1.

Definition name_is (n : string) : Change := mkChange "name" (JStr n).

Definition lobby_joined : World := run boot [Settle 0 (Fulfilled "lobby")].

(** Two public joins are initiated; the second resolves first, with session
    id [sB], then the first, with session id [sA]. *)
Definition two_joins : list Step :=
  [Invoke (call_joinOrCreatePublic "u1");
   Invoke (call_joinOrCreatePublic "u1");
   Settle 1 (Fulfilled "sB");
   Settle 0 (Fulfilled "sA")].

(** The remote player [s2] is added with an empty name and names itself
    Alice. *)
Definition s2_is_alice : list Step :=
  join_as_s1
  ++ [Notify 0 (players_add "s2" (JStr ""));
      Notify 0 (player_change "s2" [name_is "Alice"])].

(** It then renames itself Bob. *)
Definition alice_becomes_bob : Step :=
  Notify 0 (player_change "s2" [name_is "Bob"]).

(** Three player objects decoded by the client in the joined room, the last
    one being the local player's own. *)
Definition three_players : World :=
  set_playerObjs
    [mkPlayer (JStr "") None; mkPlayer (JStr "") None; mkPlayer (JStr "") None]
    joined_world.

Definition adds_then_own_remove : list Obs.PlayersNotification :=
  [Obs.Added 0 "s2"; Obs.Added 1 "s3"; Obs.Added 2 "s1"; Obs.Removed 2 "s1"].

End Scenarios.

(** ** The pages around the session

    The root component ([App]) and the sign-up dialog, as functions of the
    state they read. A state setter called by a handler takes effect at the
    next render, so a handler reads the state it was created with and
    returns the state of the next render. *)

Module App.

(** [ENTERING_PROCESS] of the user store; the component names three of its
    members, [other] stands for any further one. *)
Inductive ENTERING_PROCESS := ENTRY | SIGNUP | LOGIN | other (tag : nat).

Inductive Element :=
| TableDialog
| NavigationContainer
| VideoConnectionDialog
| WelcomeToast
| EntryDialog
| SignUpDialog
| SignInDialog
| CharacterSelectionDialog.

#[global] Instance Element_eq_dec : EqDecision Element.
Proof. solve_decision. Defined.

(** The elements rendered inside the backdrop, in order. The boolean
    children ([!tableDialogOpen], and [!videoConnected && ...] when it is
    [false]) render nothing. *)
Definition App (characterSelected tableDialogOpen videoConnected : bool)
    (enteringProcess : ENTERING_PROCESS) : list Element :=
  let ui :=
    if characterSelected then
      if tableDialogOpen then [TableDialog]
      else
        [NavigationContainer]
        ++ (if negb videoConnected then [VideoConnectionDialog] else [])
        ++ [WelcomeToast]
    else
      match enteringProcess with
      | ENTRY => [EntryDialog]
      | SIGNUP => [SignUpDialog]
      | LOGIN => [SignInDialog]
      | other _ => [CharacterSelectionDialog]
      end
  in
  ui.

End App.

Module SignUpDialog.

Record State := mkState {
  userId : string;
  password : string;
  showPassword : bool;
  pwFieldEmpty : bool;
  userIdFieldEmpty : bool;
  userIdFieldWrong : bool;
}.

(** Action creators of the user store the dialog dispatches. *)
Inductive AuthAction :=
| setSignUp (b : bool)
| setSignedUp (b : bool)
| setSignIn (b : bool).

Inductive Effect :=
| PreventDefault
| Log (args : list JValue)
| Dispatch (a : AuthAction)
| Post (url : string) (body : JValue)
| Unhandled.

Definition initial : State := mkState "" "" false false false false.

Definition setUserId v (s : State) : State :=
  mkState v (password s) (showPassword s) (pwFieldEmpty s)
    (userIdFieldEmpty s) (userIdFieldWrong s).
Definition setPassword v (s : State) : State :=
  mkState (userId s) v (showPassword s) (pwFieldEmpty s)
    (userIdFieldEmpty s) (userIdFieldWrong s).
Definition setShowPassword v (s : State) : State :=
  mkState (userId s) (password s) v (pwFieldEmpty s)
    (userIdFieldEmpty s) (userIdFieldWrong s).
Definition setPwFieldEmpty v (s : State) : State :=
  mkState (userId s) (password s) (showPassword s) v
    (userIdFieldEmpty s) (userIdFieldWrong s).
Definition setUserIdFieldEmpty v (s : State) : State :=
  mkState (userId s) (password s) (showPassword s) (pwFieldEmpty s)
    v (userIdFieldWrong s).
Definition setUserIdFieldWrong v (s : State) : State :=
  mkState (userId s) (password s) (showPassword s) (pwFieldEmpty s)
    (userIdFieldEmpty s) v.

(** [setShowPassword((show) => !show)] *)
Definition handleClickShowPassword (s : State) : State :=
  setShowPassword (negb (showPassword s)) s.

Definition goToEntry (s : State) : State * list Effect :=
  (s, [PreventDefault; Dispatch (setSignUp false);
       Dispatch (setSignedUp false); Dispatch (setSignIn false)]).

(** The submit handler up to the request. It reads [userId], [password] and
    [userIdFieldEmpty] of the current render [s]. *)
Definition onSubmitHandler (s : State) : State * list Effect :=
  let s1 := setPwFieldEmpty false
              (setUserIdFieldWrong false (setUserIdFieldEmpty false s)) in
  let logs := [PreventDefault; Log [JStr (userId s)];
               Log [JBool (userIdFieldEmpty s)]] in
  let s2 := if String.eqb (userId s) "" then setUserIdFieldEmpty true s1
            else s1 in
  if String.eqb (password s) "" then (setPwFieldEmpty true s2, logs)
  else
    (s2,
     logs
     ++ [Log [JObj [("userId", JStr (userId s))]];
         Log [JObj [("password", JStr (password s))]];
         Post "/auth/signup"
           (JObj [("userId", JStr (userId s));
                  ("password", JStr (password s))])]).

(** How the request settles. *)
Inductive Outcome :=
| Fulfilled (response : JValue)
| Rejected (error : JValue).

Section Response.
(** The numeric value of a string, where it has an integral one, and the
    message of the TypeError the engine raises: both are the engine's. *)
Variable string_to_number : string → option Z.
Variable type_error_message : string.

(** [v == 200] *)
Definition loose_eq_200 (v : JValue) : bool :=
  match v with
  | JNum n => Z.eqb n 200
  | JStr s =>
      match string_to_number s with
      | Some n => Z.eqb n 200
      | None => false
      end
  | JBool _ | JUndefined | JNull | JObj _ => false
  end.

(** [v == s] for a string [s] that is no numeric literal. *)
Definition loose_eq_text (v : JValue) (s : string) : bool :=
  match v with
  | JStr s' => String.eqb s' s
  | _ => false
  end.

(** The first [then] callback; [None] when it raises a TypeError. *)
Definition on_response (response : JValue) : option (list Effect) :=
  data ← destructure response "data";
  status ← destructure data "status";
  Some (if loose_eq_200 status
        then [Dispatch (setSignUp false); Dispatch (setSignedUp true);
              Dispatch (setSignIn true)]
        else [Log [JStr "11111"]]).

(** The [catch] callback; the boolean tells whether it raised itself. *)
Definition on_error (error : JValue) (s : State)
    : State * list Effect * bool :=
  let s' := setUserIdFieldWrong true s in
  match destructure error "message" with
  | None => (s', [], true)
  | Some message =>
      (s',
       [Log [JStr "hi"; message];
        Log [JStr (if loose_eq_text message
                        "Request failed with status code 409"
                   then "22222" else "444444")]],
       false)
  end.

(** The chain [.then(...).catch(...).then(...)] on the settled request. *)
Definition settle (o : Outcome) (s : State) : State * list Effect :=
  let last := [Log [JStr "333333"]] in
  let caught error :=
    match on_error error s with
    | (s', effects, false) => (s', effects ++ last)
    | (s', effects, true) => (s', effects ++ [Unhandled])
    end in
  match o with
  | Fulfilled response =>
      match on_response response with
      | Some effects => (s, effects ++ last)
      | None => caught (JObj [("message", JStr type_error_message)])
      end
  | Rejected error => caught error
  end.
End Response.

(** The requests among the effects. *)
Definition posts (effects : list Effect) : list (string * JValue) :=
  omap (λ e, match e with Post url body => Some (url, body) | _ => None end)
    effects.

Definition dispatches (effects : list Effect) : list AuthAction :=
  omap (λ e, match e with Dispatch a => Some a | _ => None end) effects.

End SignUpDialog.

(** ** Further observations *)

Module Views.
Import Network Runtime Obs.

(** What one inbound message does in a room whose handlers are registered:
    each kind is handled by its one callback, the kinds the class registers
    no callback for by none. *)
Definition inbound_effect (w : World) (m : Message) (payload : JValue)
    : list Action :=
  match m with
  | SEND_ROOM_DATA => [Dispatch (setJoinedRoomData payload)]
  | ADD_CHAT_MESSAGE =>
      if nullish payload then [Uncaught]
      else [Emit (UPDATE_DIALOG_BUBBLE (prop payload "clientId")
                    (prop payload "content"))]
  | DISCONNECT_STREAM => [RTC (deleteOnCalledVideoStream payload)]
  | STOP_TABLE_TALK =>
      if tableTalkManager w then [TableTalkOnUserLeft payload] else []
  | RECEIVE_DM => [ConsoleLog [payload]]
  | _ => []
  end.

(** The recorded identity is that of the active room: the session id, and
    the id the WebRTC instance was created with, are the session id of the
    room [this.room] refers to, and the lobby has been joined. *)
Definition identity_consistent (w : World) : Prop :=
  ∀ s, mySessionId w = Some s →
    lobby w = Some LobbyRoom
    ∧ webRTC w = Some (mkWebRTC (Some s))
    ∧ ∃ rid r, room w = Some rid ∧ rooms w !! rid = Some r
               ∧ sessionId r = s.

(** The notifications that append the given items to the chat log of room
    [rid], in order. *)
Definition chat_appends (rid : RoomId) (items : list JValue) : list Step :=
  map (λ item, Notify rid (chatMessages_add item)) items.

(** Seat changes of one table, as the server reports them: an occupant is
    appended, or the occupant at an index is removed. *)
Inductive SeatOp :=
| Sit (item : JValue)
| Leave (index : nat).

Definition seat_step (rid : RoomId) (key : string) (op : SeatOp) : Step :=
  match op with
  | Sit item => Notify rid (connectedUser_add key item)
  | Leave index => Notify rid (connectedUser_remove key index)
  end.

(** The seat events a sequence of seat changes stands for, and the
    occupants it leaves, for the table known under [key] that starts with
    the given occupants. *)
Fixpoint seat_replay (key : string) (occupants : list JValue)
    (ops : list SeatOp) : list Action * list JValue :=
  match ops with
  | [] => ([], occupants)
  | Sit item :: rest =>
      let (events, final) := seat_replay key (occupants ++ [item]) rest in
      (Emit (ITEM_USER_ADDED item key CHAIR) :: events, final)
  | Leave index :: rest =>
      match occupants !! index with
      | Some item =>
          let (events, final) :=
            seat_replay key (delete index occupants) rest in
          (Emit (ITEM_USER_REMOVED item key CHAIR) :: events, final)
      | None => seat_replay key occupants rest
      end
  end.

(** Every player registered under a key in some room is an allocated
    object, and a change listener attached to it has captured that key. *)
Definition keyed (w : World) : Prop :=
  ∀ rid r key player,
    rooms w !! rid = Some r → players r !! key = Some player →
    player < length (playerObjs w)
    ∧ ∀ obj captured,
        playerObjs w !! player = Some obj →
        onChange obj = Some captured → captured = key.

End Views.

(** * Properties *)

Module Props.
Import Network Runtime Obs Scenarios.

(** ** Reading traces *)

Lemma since_app w w' (l : list Action) :
  trace w' = trace w ++ l → since w w' = l.
Proof. intros H. unfold since. by rewrite H, drop_app_length. Qed.

Lemma since_refl w : since w w = [].
Proof. apply since_app. by rewrite app_nil_r. Qed.

Lemma since_set_trace w (l : list Action) :
  since w (set_trace (trace w ++ l) w) = l.
Proof. by apply since_app. Qed.

Lemma bus_app (t1 t2 : list Action) : bus (t1 ++ t2) = bus t1 ++ bus t2.
Proof. apply omap_app. Qed.

Lemma strict_ne_empty_spec v : strict_ne_empty v = true ↔ v ≠ JStr "".
Proof.
  destruct v as [| | | |[|a s]|]; simpl; split; intros H;
    congruence.
Qed.

Lemma sets_name_spec c :
  String.eqb (field c) "name" && strict_ne_empty (value c) = true
  ↔ sets_name c.
Proof.
  unfold sets_name.
  by rewrite andb_true_iff, String.eqb_eq, strict_ne_empty_spec.
Qed.

(** Unfolds the monad and its primitive operations. *)
Ltac run_m :=
  cbv beta iota delta
    [mbind mret M_bind M_ret gets get modify throw act emit dispatch
     console_log room_send rtc lobby_leave suspend modify_room modify_player
     modify_table attach_room room_onMessage room_onStateChange world_of
     returns].

(** Computes [since w w'] when the trace of [w'] visibly extends that of
    [w]. *)
Ltac since_app :=
  erewrite since_app;
  [ | unfold set_trace; simpl; rewrite <- ?app_assoc; reflexivity ].

(** ** Outbound API *)

Section Outbound.
Variable w : World.

Lemma room_send_joined rid m payload :
  room w = Some rid →
  room_send m payload w
  = Ret tt (set_trace (trace w ++ [Send rid m payload]) w).
Proof. intros H. run_m. by rewrite H. Qed.

Lemma room_send_unjoined m payload :
  room w = None → room_send m payload w = Ret tt w.
Proof. intros H. run_m. by rewrite H. Qed.

End Outbound.

(** C10, as amended. With a room joined,
    [sendPrivateMessage sender receiver content] returns normally and sends
    exactly two outbound messages, in this order: a send-private-message
    carrying [{sender, receiver, content}], then an
    acknowledge-private-message whose [sender] field is the [receiver]
    argument. *)
Theorem sendPrivateMessage_two_messages w rid sender receiver content :
  room w = Some rid →
  returns (sendPrivateMessage sender receiver content w) = true
  ∧ sent (since w (world_of (sendPrivateMessage sender receiver content w)))
    = [(rid, SEND_DM,
        JObj [("sender", JStr sender); ("receiver", JStr receiver);
              ("content", JStr content)]);
       (rid, RECEIVE_DM, JObj [("sender", JStr receiver)])]
  ∧ length (since w (world_of (sendPrivateMessage sender receiver content w)))
    = 2.
Proof.
  intros Hroom. unfold sendPrivateMessage, checkPrivateMessage.
  cbv beta iota delta [mbind M_bind].
  rewrite room_send_joined with (rid := rid) by done.
  rewrite room_send_joined with (rid := rid) by done.
  simpl. since_app. done.
Qed.

Lemma sendPrivateMessage_two_messages_witness :
  returns (sendPrivateMessage "alice" "bob" "hi" joined_world) = true
  ∧ sent (since joined_world
            (world_of (sendPrivateMessage "alice" "bob" "hi" joined_world)))
    = [(0, SEND_DM,
        JObj [("sender", JStr "alice"); ("receiver", JStr "bob");
              ("content", JStr "hi")]);
       (0, RECEIVE_DM, JObj [("sender", JStr "bob")])]
  ∧ length (since joined_world
              (world_of (sendPrivateMessage "alice" "bob" "hi" joined_world)))
    = 2.
Proof.
  apply (sendPrivateMessage_two_messages joined_world 0 "alice" "bob" "hi").
  reflexivity.
Defined.

(** C10, as stated, fails: a call made before any room is joined sends no
    message at all, both sends being guarded by [this.room?.]. *)
Lemma sendPrivateMessage_unjoined_sends_nothing :
  room boot = None
  ∧ returns (sendPrivateMessage "alice" "bob" "hi" boot) = true
  ∧ sent (since boot (world_of (sendPrivateMessage "alice" "bob" "hi" boot)))
    = []
  ∧ length
      (sent (since boot
               (world_of (sendPrivateMessage "alice" "bob" "hi" boot))))
    ≠ 2.
Proof. vm_compute. repeat split; discriminate. Qed.

(** Every send call with no room joined leaves the trace free of sends. *)
Lemma send_call_unjoined w c :
  is_send_call c = true → destructurable c = true → room w = None →
  returns (invoke c w) = true ∧ sent (since w (world_of (invoke c w))) = [].
Proof.
  intros Hsend Hd Hroom.
  destruct c; try discriminate; simpl invoke;
    try (unfold updatePlayer, connectToTable, updateChairStatus,
           disconnectFromTable, onStopTableTalk, addChatMessage,
           checkPrivateMessage;
         rewrite room_send_unjoined by done; simpl; by rewrite since_refl).
  - (* updatePlayerName *)
    unfold updatePlayerName. destruct message; try discriminate; simpl;
      run_m; simpl; rewrite Hroom; simpl; since_app; done.
  - unfold readyToConnect. run_m. rewrite Hroom. simpl. since_app. done.
  - unfold videoConnected. run_m. rewrite Hroom. simpl. since_app. done.
  - unfold playerStreamDisconnect. run_m. rewrite Hroom.
    destruct (webRTC w); simpl; [since_app; done | by rewrite since_refl].
  - unfold sendPrivateMessage, checkPrivateMessage. run_m. rewrite Hroom.
    simpl. rewrite Hroom. simpl. by rewrite since_refl.
Qed.

(** C9, as amended. Before any room has been joined, no call of the outbound
    send API sends a message, whatever its arguments; and every such call
    returns normally, except that a name update whose argument is [null] or
    [undefined] raises a TypeError when the argument is destructured. *)
Theorem send_before_join_sends_nothing w c :
  is_send_call c = true → room w = None →
  sent (since w (world_of (invoke c w))) = []
  ∧ returns (invoke c w) = destructurable c.
Proof.
  intros Hsend Hroom. destruct (destructurable c) eqn:Hd.
  - destruct (send_call_unjoined w c) as [-> ->]; done.
  - destruct c; try discriminate. simpl in Hd.
    destruct message; try discriminate; simpl;
      unfold updatePlayerName; simpl; run_m; by rewrite since_refl.
Qed.

Lemma send_before_join_sends_nothing_witness :
  sent (since boot
          (world_of (invoke (call_sendPrivateMessage "alice" "bob" "hi") boot)))
  = []
  ∧ returns (invoke (call_sendPrivateMessage "alice" "bob" "hi") boot)
    = destructurable (call_sendPrivateMessage "alice" "bob" "hi").
Proof.
  apply (send_before_join_sends_nothing boot
           (call_sendPrivateMessage "alice" "bob" "hi"));
    reflexivity.
Defined.

(** C9, as stated, fails: with no room joined, a name update whose argument
    is [null] does not return normally. *)
Lemma updatePlayerName_null_raises :
  room boot = None
  ∧ is_send_call (call_updatePlayerName JNull) = true
  ∧ updatePlayerName JNull boot = Throw TypeError boot.
Proof. repeat split. Qed.

(** ** The change listener of a remote player *)

Section ChangeListener.
Variables (player : PlayerRef) (key : string).

Lemma player_onChange_run changes w :
  player_onChange player key changes w
  = Ret tt (set_trace
              (trace w
               ++ flat_map (entry_actions player key (myUserId w)) changes)
              w).
Proof.
  unfold player_onChange. revert w.
  induction changes as [|c changes IH]; intros w.
  - simpl. unfold set_trace. rewrite app_nil_r. by destruct w.
  - simpl forEach. cbv beta iota delta [mbind M_bind].
    cbn [flat_map]. unfold entry_actions at 1.
    destruct (decide (sets_name c)) as [Hc|Hc].
    + apply sets_name_spec in Hc. rewrite Hc. run_m. simpl.
      rewrite IH. simpl. unfold set_trace. simpl.
      by rewrite <- !app_assoc.
    + rewrite <- sets_name_spec in Hc.
      apply not_true_is_false in Hc. rewrite Hc. run_m. simpl.
      rewrite IH. simpl. unfold set_trace. simpl.
      by rewrite <- !app_assoc.
Qed.

Lemma bus_entry_actions u c :
  bus (entry_actions player key u c) = entry_events player key c.
Proof. unfold entry_actions, entry_events. by destruct (decide _). Qed.

Lemma bus_flat_map_entry_actions u changes :
  bus (flat_map (entry_actions player key u) changes)
  = flat_map (entry_events player key) changes.
Proof.
  induction changes as [|c changes IH]; [done|].
  cbn [flat_map]. by rewrite bus_app, bus_entry_actions, IH.
Qed.

Lemma updated_entry_events changes :
  filter is_updated (flat_map (entry_events player key) changes)
  = map (λ c, PLAYER_UPDATED (field c) (value c) key) changes.
Proof.
  induction changes as [|c changes IH]; [done|].
  cbn [flat_map]. rewrite filter_app, IH. unfold entry_events.
  destruct (decide (sets_name c)); done.
Qed.

Lemma joined_entry_events changes :
  length (filter is_joined (flat_map (entry_events player key) changes))
  = length (filter sets_name changes).
Proof.
  induction changes as [|c changes IH]; [done|].
  cbn [flat_map]. rewrite filter_app, length_app, IH, filter_cons.
  unfold entry_events. destruct (decide (sets_name c)); done.
Qed.

Lemma joined_for_entry_events changes :
  length (filter (joined_for key)
            (flat_map (entry_events player key) changes))
  = length (filter sets_name changes).
Proof.
  induction changes as [|c changes IH]; [done|].
  cbn [flat_map]. rewrite filter_app, length_app, IH, filter_cons.
  unfold entry_events. destruct (decide (sets_name c)); [|done].
  rewrite filter_cons. simpl. rewrite filter_cons. simpl.
  rewrite String.eqb_refl. done.
Qed.

(** A sequence of change notifications delivered to the listener. *)
Lemma notifications_run (notifications : list (list Change)) w :
  forEach notifications (player_onChange player key) w
  = Ret tt (set_trace
              (trace w
               ++ flat_map (entry_actions player key (myUserId w))
                    (concat notifications))
              w).
Proof.
  revert w. induction notifications as [|n ns IH]; intros w.
  - simpl. unfold set_trace. rewrite app_nil_r. by destruct w.
  - simpl forEach. cbv beta iota delta [mbind M_bind].
    rewrite player_onChange_run, IH. simpl concat.
    rewrite flat_map_app. unfold set_trace. simpl.
    by rewrite <- app_assoc.
Qed.
End ChangeListener.

(** C7. Within one change notification for a remote player, the listener
    returns normally and emits, for each changed field in the order the
    server listed them, the generic [PLAYER_UPDATED(field, value, key)] event
    first and then, when the entry also triggers it, the derived
    [PLAYER_JOINED] event; so the generic events are exactly one per changed
    field, in the server's order. *)
Theorem player_onChange_order player key changes w :
  returns (player_onChange player key changes w) = true
  ∧ bus (since w (world_of (player_onChange player key changes w)))
    = flat_map (entry_events player key) changes
  ∧ filter is_updated
      (bus (since w (world_of (player_onChange player key changes w))))
    = map (λ c, PLAYER_UPDATED (field c) (value c) key) changes.
Proof.
  rewrite player_onChange_run. simpl. rewrite since_set_trace.
  rewrite bus_flat_map_entry_actions, updated_entry_events. done.
Qed.

(** C1, as amended. For every remote player and every sequence of change
    notifications, [PLAYER_JOINED] is emitted once for each changed-field
    entry that sets [name] to a value other than the empty string, however
    often that happens: once when the name goes from empty to non-empty, and
    once more for every later reassignment to a non-empty value, each time
    after the generic [PLAYER_UPDATED] event of the entry. *)
Theorem player_joined_per_name_change player key
    (notifications : list (list Change)) w :
  let w' := world_of (forEach notifications (player_onChange player key) w) in
  count_joined (since w w') = length (filter sets_name (concat notifications))
  ∧ count_joined_for key (since w w')
    = length (filter sets_name (concat notifications))
  ∧ bus (since w w')
    = flat_map (entry_events player key) (concat notifications).
Proof.
  rewrite notifications_run. simpl. rewrite since_set_trace.
  unfold count_joined, count_joined_for.
  rewrite bus_flat_map_entry_actions, joined_entry_events,
    joined_for_entry_events.
  done.
Qed.

(** C1, as stated, fails: after the remote player [s2] has named itself
    Alice, renaming it to Bob emits a second [PLAYER_JOINED] for [s2], not
    only the generic update. *)
Lemma renamed_player_joins_again :
  let w1 := run boot s2_is_alice in
  let w2 := step w1 alice_becomes_bob in
  count_joined_for "s2" (trace w1) = 1
  ∧ count_joined_for "s2" (trace w2) = 2
  ∧ ¬ (count_joined_for "s2" (trace w2) ≤ 1)%nat
  ∧ since w1 w2
    = [Emit (PLAYER_UPDATED "name" (JStr "Bob") "s2");
       Emit (PLAYER_JOINED 0 "s2");
       Dispatch (setPlayerNameMap "s2" (JStr "Bob") (Some "u1"));
       Dispatch (pushPlayerJoinedMessage (JStr "Bob"))].
Proof.
  vm_compute. repeat split; try reflexivity. intros H.
  by apply Nat.nle_succ_diag_l in H.
Qed.

(** ** The listeners of the players collection *)

Lemma players_onAdd_run player key w :
  players_onAdd player key w
  = Ret tt
      (if decide (mySessionId w = Some key) then w
       else set_trace (trace w ++ [Attach (player_onChange_slot player)])
              (set_playerObjs
                 (alter (λ p, mkPlayer (name p) (Some key)) player
                    (playerObjs w)) w)).
Proof.
  unfold players_onAdd. run_m. by destruct (decide _).
Qed.

Lemma players_onRemove_run player key w :
  players_onRemove player key w
  = Ret tt
      (set_trace
         (trace w
          ++ Emit (PLAYER_LEFT key)
             :: match webRTC w with
                | Some _ =>
                    [RTC (deleteVideoStream (JStr key));
                     RTC (deleteOnCalledVideoStream (JStr key))]
                | None => []
                end
             ++ [Dispatch (pushPlayerLeftMessage
                             (name (playerObjs w !!! player)));
                 Dispatch (removePlayerNameMap key)])
         w).
Proof.
  unfold players_onRemove. run_m. simpl.
  destruct (webRTC w) eqn:E; simpl; rewrite ?E; simpl; unfold set_trace;
    simpl; rewrite <- ?app_assoc; reflexivity.
Qed.

(** The trace that a sequence of add and remove notifications adds carries
    one [PLAYER_LEFT] per remove and no other bus event. *)
Lemma translate_run ns : ∀ w,
  ∃ w' l, forEach ns translate w = Ret tt w'
          ∧ trace w' = trace w ++ l
          ∧ bus l = map PLAYER_LEFT (removed_keys ns).
Proof.
  induction ns as [|n ns IH]; intros w.
  - exists w, []. by rewrite app_nil_r.
  - simpl forEach. cbv beta iota delta [mbind M_bind].
    destruct n as [player key|player key]; simpl translate.
    + rewrite players_onAdd_run.
      destruct (decide (mySessionId w = Some key)).
      * destruct (IH w) as (w' & l & -> & Ht & Hb). by exists w', l.
      * match goal with |- context [forEach ns translate ?x] =>
          destruct (IH x) as (w' & l & -> & Ht & Hb) end.
        exists w', (Attach (player_onChange_slot player) :: l).
        split; [done|]. split; [|done].
        rewrite Ht. simpl. by rewrite <- app_assoc.
    + rewrite players_onRemove_run.
      match goal with |- context [forEach ns translate ?x] =>
        destruct (IH x) as (w' & l & -> & Ht & Hb) end.
      eexists w', _. split; [done|]. split.
      * rewrite Ht. simpl. rewrite <- app_assoc. reflexivity.
      * simpl. rewrite bus_app. destruct (webRTC w); simpl; by rewrite Hb.
Qed.

Lemma filter_left_all keys :
  filter is_left (map PLAYER_LEFT keys) = map PLAYER_LEFT keys.
Proof.
  induction keys; [done|]. rewrite map_cons, filter_cons. simpl. by f_equal.
Qed.

Lemma filter_joined_none keys : filter is_joined (map PLAYER_LEFT keys) = [].
Proof. induction keys; [done|]. by rewrite map_cons, filter_cons. Qed.

Lemma name_attach key player (objs : list IPlayer) q :
  name (alter (attach_listener key) player objs !!! q) = name (objs !!! q).
Proof.
  rewrite !list_lookup_total_alt, list_lookup_alter.
  destruct (decide (player = q)) as [->|]; [|done].
  by destruct (objs !! q).
Qed.

Lemma notification_actions_ext w1 w :
  mySessionId w1 = mySessionId w → webRTC w1 = webRTC w →
  (∀ p, name (playerObjs w1 !!! p) = name (playerObjs w !!! p)) →
  ∀ n, notification_actions w1 n = notification_actions w n.
Proof.
  intros Hme Hrtc Hname [player key|player key]; simpl.
  - by rewrite Hme.
  - by rewrite Hrtc, Hname.
Qed.

(** The world a sequence of add and remove notifications leads to. *)
Lemma translate_world ns : ∀ w,
  forEach ns translate w
  = Ret tt
      (set_trace (trace w ++ flat_map (notification_actions w) ns)
         (set_playerObjs
            (foldl (listened (mySessionId w)) (playerObjs w) ns) w)).
Proof.
  induction ns as [|n ns IH]; intros w.
  - simpl. rewrite app_nil_r. by destruct w.
  - simpl forEach. cbv beta iota delta [mbind M_bind].
    destruct n as [player key|player key]; simpl translate.
    + rewrite players_onAdd_run. cbn [foldl flat_map listened].
      unfold notification_actions at 1.
      destruct (decide (mySessionId w = Some key)) as [Hme|Hme].
      * by rewrite IH.
      * match goal with |- forEach ns translate ?x = _ => set (w1 := x) end.
        rewrite IH.
        rewrite (flat_map_ext _ _
                   (notification_actions_ext w1 w eq_refl eq_refl
                      (name_attach key player (playerObjs w)))).
        unfold w1, set_trace, set_playerObjs. simpl.
        by rewrite <- app_assoc.
    + rewrite players_onRemove_run.
      match goal with |- forEach ns translate ?x = _ => set (w1 := x) end.
      rewrite IH. cbn [foldl flat_map listened].
      rewrite (flat_map_ext _ _
                 (notification_actions_ext w1 w eq_refl eq_refl
                    (λ p, eq_refl))).
      unfold w1, set_trace, set_playerObjs. simpl.
      rewrite <- !app_assoc. simpl. by rewrite <- ?app_assoc.
Qed.

(** C2, as amended. For every sequence of player-add and player-remove
    notifications the listeners return normally; an add emits no bus event:
    for a key other than the local session id it attaches the change
    listener to the player added and does nothing else, [PLAYER_JOINED]
    being left to the name change, and for the local session id it does
    nothing at all; and every remove emits exactly one [PLAYER_LEFT]
    carrying its key, whatever the key, followed by the stream deletions and
    the two store actions. So the number of [PLAYER_JOINED] events is zero
    and the number of [PLAYER_LEFT] events is the number of remove
    operations. *)
Theorem adds_silent_removes_leave ns w :
  let w' := world_of (forEach ns translate w) in
  returns (forEach ns translate w) = true
  ∧ bus (since w w') = map PLAYER_LEFT (removed_keys ns)
  ∧ count_joined (since w w') = 0
  ∧ count_left (since w w') = length (removed_keys ns)
  ∧ w' = set_trace (trace w ++ flat_map (notification_actions w) ns)
           (set_playerObjs
              (foldl (listened (mySessionId w)) (playerObjs w) ns) w)
  ∧ (∀ player key,
       mySessionId w = Some key → players_onAdd player key w = Ret tt w)
  ∧ (∀ player key obj,
       mySessionId w ≠ Some key → playerObjs w !! player = Some obj →
       playerObjs (world_of (players_onAdd player key w)) !! player
       = Some (mkPlayer (name obj) (Some key))
       ∧ since w (world_of (players_onAdd player key w))
         = [Attach (player_onChange_slot player)]).
Proof.
  intros w'.
  assert (w' = set_trace (trace w ++ flat_map (notification_actions w) ns)
                 (set_playerObjs
                    (foldl (listened (mySessionId w)) (playerObjs w) ns) w))
    as Hw' by (unfold w'; by rewrite translate_world).
  destruct (translate_run ns w) as (w1 & l & Hrun & Ht & Hb).
  unfold w' in *. rewrite Hrun in *. simpl in *.
  rewrite (since_app _ _ _ Ht). unfold count_joined, count_left.
  rewrite Hb, filter_left_all, filter_joined_none, length_map.
  repeat split; try done.
  - intros player key Hme. rewrite players_onAdd_run.
    by destruct (decide (mySessionId w = Some key)).
  - rewrite players_onAdd_run.
    destruct (decide (mySessionId w = Some key)); [done|]. simpl.
    by rewrite list_lookup_alter_eq, H0.
  - rewrite players_onAdd_run.
    destruct (decide (mySessionId w = Some key)); [done|]. simpl.
    by since_app.
Qed.

Lemma adds_silent_removes_leave_witness :
  players_onAdd 2 "s1" three_players = Ret tt three_players
  ∧ playerObjs (world_of (players_onAdd 0 "s2" three_players)) !! 0
    = Some (mkPlayer (JStr "") (Some "s2"))
  ∧ since three_players (world_of (players_onAdd 0 "s2" three_players))
    = [Attach (player_onChange_slot 0)].
Proof.
  destruct (adds_silent_removes_leave [] three_players)
    as (_ & _ & _ & _ & _ & Hown & Hremote).
  split.
  - apply Hown. reflexivity.
  - apply (Hremote 0 "s2" (mkPlayer (JStr "") None)).
    + discriminate.
    + reflexivity.
Defined.

(** C2, as stated, fails: with local session id [s1], adding the remote
    players [s2] and [s3] and the local player, then removing the local
    player, emits no [PLAYER_JOINED] and one [PLAYER_LEFT], while two adds and
    no remove carry a key other than [s1]. The adds only attach the change
    listener to the two remote players. *)
Lemma remote_adds_do_not_join :
  let w' := world_of (forEach adds_then_own_remove translate three_players) in
  mySessionId three_players = Some "s1"
  ∧ remote_adds "s1" adds_then_own_remove = 2
  ∧ remote_removes "s1" adds_then_own_remove = 0
  ∧ count_joined (since three_players w') = 0
  ∧ count_left (since three_players w') = 1
  ∧ bus (since three_players w') = [PLAYER_LEFT "s1"]
  ∧ count_joined (since three_players w')
    ≠ remote_adds "s1" adds_then_own_remove
  ∧ count_left (since three_players w')
    ≠ remote_removes "s1" adds_then_own_remove
  ∧ count_joined (since three_players w')
    + count_left (since three_players w')
    ≠ remote_adds "s1" adds_then_own_remove
      + remote_removes "s1" adds_then_own_remove
  ∧ onChange <$> playerObjs w' = [Some "s2"; Some "s3"; None]
  ∧ since three_players w'
    = [Attach (player_onChange_slot 0); Attach (player_onChange_slot 1);
       Emit (PLAYER_LEFT "s1");
       RTC (deleteVideoStream (JStr "s1"));
       RTC (deleteOnCalledVideoStream (JStr "s1"));
       Dispatch (pushPlayerLeftMessage (JStr ""));
       Dispatch (removePlayerNameMap "s1")].
Proof. vm_compute. repeat split; discriminate. Qed.

(** ** Inbound message handlers *)

Lemma session_set_trace t w : session (set_trace t w) = session w.
Proof. done. Qed.

(** No handler touches anything of the session but the trace. *)
Lemma message_callback_session m payload w :
  session (world_of (message_callback m payload w)) = session w.
Proof.
  destruct m; simpl; try done;
    unfold on_STOP_TABLE_TALK, on_ADD_CHAT_MESSAGE, on_DISCONNECT_STREAM,
      on_RECEIVE_DM, on_SEND_ROOM_DATA;
    run_m; try done;
    first [ by destruct (tableTalkManager w)
          | by destruct payload
          | by destruct (webRTC w) ].
Qed.

Lemma message_callback_returns m payload w :
  returns (message_callback m payload w) = negb (is_chat m && nullish payload).
Proof.
  destruct m; simpl; try done;
    unfold on_STOP_TABLE_TALK, on_ADD_CHAT_MESSAGE, on_DISCONNECT_STREAM,
      on_RECEIVE_DM, on_SEND_ROOM_DATA;
    run_m; try done;
    first [ by destruct (tableTalkManager w)
          | by destruct payload
          | by destruct (webRTC w) ].
Qed.

Lemma on_ADD_CHAT_MESSAGE_run payload w :
  nullish payload = false →
  on_ADD_CHAT_MESSAGE payload w
  = Ret tt (set_trace
              (trace w
               ++ [Emit (UPDATE_DIALOG_BUBBLE (prop payload "clientId")
                           (prop payload "content"))])
              w).
Proof. by destruct payload. Qed.

Lemma forEach_session {A} (l : list A) (f : A → M unit) w :
  (∀ x w, session (world_of (f x w)) = session w) →
  session (world_of (forEach l f w)) = session w.
Proof.
  intros Hf. revert w. induction l as [|x l IH]; intros w; [done|].
  simpl. cbv beta iota delta [mbind M_bind].
  specialize (Hf x w). destruct (f x w) as [[] w'|e w']; simpl in *.
  - by rewrite IH.
  - done.
Qed.

Lemma step_inbound_session w rid m payload :
  session (step w (Notify rid (inbound m payload))) = session w.
Proof.
  unfold step, step_body. run_m.
  destruct (decide (rid < length (rooms w))); [|done].
  unfold deliver. run_m.
  match goal with |- context [forEach ?l ?f w] =>
    pose proof (forEach_session l f w
                  (λ x w, message_callback_session x payload w)) as H;
    destruct (forEach l f w) end; simpl in *; done.
Qed.

(** C5, as amended. The inbound message handlers do not validate their
    payload. Whatever the payload, a handler changes nothing of the session
    but the trace, also when it is delivered through the event loop, so the
    session stays usable. Every handler returns without raising, except that
    the chat-broadcast handler raises when its payload is [null] or
    [undefined]. For any other payload the chat-broadcast handler does not
    drop the notification: it emits the dialog-bubble event with the
    payload's [clientId] and [content], [undefined] where one is missing. *)
Theorem inbound_payloads_unchecked m payload w rid :
  session (world_of (message_callback m payload w)) = session w
  ∧ session (step w (Notify rid (inbound m payload))) = session w
  ∧ returns (message_callback m payload w)
    = negb (is_chat m && nullish payload)
  ∧ (nullish payload = false →
     since w (world_of (on_ADD_CHAT_MESSAGE payload w))
     = [Emit (UPDATE_DIALOG_BUBBLE (prop payload "clientId")
                (prop payload "content"))]).
Proof.
  split; [apply message_callback_session|].
  split; [apply step_inbound_session|].
  split; [apply message_callback_returns|].
  intros H. rewrite on_ADD_CHAT_MESSAGE_run by done. simpl.
  by rewrite since_set_trace.
Qed.

Lemma inbound_payloads_unchecked_witness :
  session (world_of (message_callback ADD_CHAT_MESSAGE
                       (JObj [("content", JStr "hi")]) joined_world))
  = session joined_world
  ∧ session (step joined_world
               (Notify 0 (inbound ADD_CHAT_MESSAGE
                            (JObj [("content", JStr "hi")]))))
    = session joined_world
  ∧ returns (message_callback ADD_CHAT_MESSAGE
               (JObj [("content", JStr "hi")]) joined_world)
    = true
  ∧ since joined_world
      (world_of (on_ADD_CHAT_MESSAGE (JObj [("content", JStr "hi")])
                   joined_world))
    = [Emit (UPDATE_DIALOG_BUBBLE JUndefined (JStr "hi"))].
Proof.
  destruct (inbound_payloads_unchecked ADD_CHAT_MESSAGE
              (JObj [("content", JStr "hi")]) joined_world 0)
    as (H1 & H2 & H3 & H4).
  split; [exact H1|]. split; [exact H2|]. split; [exact H3|].
  apply H4. reflexivity.
Defined.

(** C5, as stated, fails: a [null] chat-broadcast payload makes the handler
    raise, which reaches the event loop uncaught, and a payload without
    [clientId] and [content] is not dropped but emitted as a dialog-bubble
    event. *)
Lemma malformed_chat_payloads :
  on_ADD_CHAT_MESSAGE JNull joined_world = Throw TypeError joined_world
  ∧ since joined_world
      (step joined_world (Notify 0 (inbound ADD_CHAT_MESSAGE JNull)))
    = [Uncaught]
  ∧ since joined_world
      (step joined_world (Notify 0 (inbound ADD_CHAT_MESSAGE (JObj []))))
    = [Emit (UPDATE_DIALOG_BUBBLE JUndefined JUndefined)].
Proof. vm_compute. repeat split. Qed.

(** Runs a computation on a world given by its fields. *)
Ltac run_w :=
  cbv beta iota delta
    [mbind mret M_bind M_ret gets get modify throw act emit dispatch
     console_log room_send rtc lobby_leave suspend modify_room modify_player
     modify_table attach_room room_onMessage room_onStateChange world_of
     returns set_room set_lobby set_webRTC set_mySessionId set_myUserId
     set_rooms set_playerObjs set_tableObjs set_pending set_trace
     set_tableTalkManager room lobby webRTC mySessionId myUserId rooms
     playerObjs tableObjs tableTalkManager pending trace].

(** ** [initialize] *)

Lemma initialize_unjoined w : room w = None → initialize w = Ret tt w.
Proof.
  intros H. destruct w. simpl in H. subst. unfold initialize. by run_w.
Qed.

Lemma initialize_no_lobby w rid :
  room w = Some rid → lobby w = None → initialize w = Throw TypeError w.
Proof.
  intros H1 H2. destruct w. simpl in H1, H2. subst. unfold initialize.
  by run_w.
Qed.

Lemma initialize_run w rid :
  room w = Some rid → lobby w = Some LobbyRoom →
  initialize w = Ret tt (initialized rid w).
Proof.
  intros H1 H2. destruct w. simpl in H1, H2. subst.
  unfold initialize, initialized. run_w. f_equal. f_equal.
  - rewrite !list_alter_alter_eq. apply list_alter_ext; [|done].
    intros r _. destruct r.
    unfold init_room, add_stateChangeHandler, add_messageHandler,
      set_chatMessages_onAdd, set_tables_onAdd, set_players_onRemove,
      set_players_onAdd.
    simpl. by rewrite <- !app_assoc.
  - unfold init_trace. by rewrite <- !app_assoc.
Qed.

Lemma initialize_cases w :
  initialize w = Ret tt w
  ∨ initialize w = Throw TypeError w
  ∨ ∃ rid, room w = Some rid ∧ lobby w = Some LobbyRoom
           ∧ initialize w = Ret tt (initialized rid w).
Proof.
  destruct (room w) as [rid|] eqn:H1.
  - destruct (lobby w) as [[]|] eqn:H2.
    + right. right. exists rid. eauto using initialize_run.
    + right. left. eauto using initialize_no_lobby.
  - left. by apply initialize_unjoined.
Qed.


(** ** Properties kept by every computation of the class *)

Section Preserves.
Context {A B : Type} (P : World → Prop).

Lemma preserves_ret (a : A) : preserves P (mret a).
Proof. by intros w. Qed.

Lemma preserves_gets (f : World → A) : preserves P (gets f).
Proof. by intros w. Qed.

Lemma preserves_throw e : preserves P (throw e : M A).
Proof. by intros w. Qed.

Lemma preserves_bind (m : M A) (k : A → M B) :
  preserves P m → (∀ a, preserves P (k a)) → preserves P (m ≫= k).
Proof.
  intros Hm Hk w Hw. unfold mbind, M_bind. specialize (Hm w Hw).
  destruct (m w) as [a w'|e w']; simpl in *; [by apply Hk|done].
Qed.

Lemma preserves_modify f :
  (∀ w, P w → P (f w)) → preserves P (modify f).
Proof. intros Hf w Hw. by apply Hf. Qed.

Lemma preserves_forEach (l : list A) (f : A → M unit) :
  (∀ x, preserves P (f x)) → preserves P (forEach l f).
Proof.
  intros Hf. induction l as [|x l IH]; intros w Hw; [done|].
  simpl. unfold mbind, M_bind. specialize (Hf x w Hw).
  destruct (f x w) as [[] w'|e w']; simpl in *; [by apply IH|done].
Qed.

Lemma preserves_times n (m : M unit) :
  preserves P m → preserves P (times n m).
Proof.
  intros Hm. induction n as [|n IH]; intros w Hw; [done|].
  simpl. unfold mbind, M_bind. specialize (Hm w Hw).
  destruct (m w) as [[] w'|e w']; simpl in *; [by apply IH|done].
Qed.
End Preserves.

(** Breaks a [preserves] goal down along the structure of the computation. *)
Ltac pres_step :=
  first
    [ apply preserves_ret
    | apply preserves_gets
    | apply preserves_throw
    | apply preserves_bind; [ | intros ? ]
    | apply preserves_forEach; intros ?
    | apply preserves_times
    | match goal with
      | |- preserves _ (match ?x with _ => _ end) => destruct x
      end ].

Ltac pres := repeat pres_step.

(** *** A known identity stays known *)

Section Identified.
Lemma identified_set_trace t w : identified w → identified (set_trace t w).
Proof. done. Qed.

Lemma identified_set_pending k w :
  identified w → identified (set_pending k w).
Proof. done. Qed.

Lemma identified_set_playerObjs l w :
  identified w → identified (set_playerObjs l w).
Proof. done. Qed.

Lemma identified_set_tableObjs l w :
  identified w → identified (set_tableObjs l w).
Proof. done. Qed.

Lemma identified_set_tableTalkManager b w :
  identified w → identified (set_tableTalkManager b w).
Proof. done. Qed.

Lemma identified_set_myUserId u w :
  identified w → identified (set_myUserId u w).
Proof. done. Qed.

Lemma identified_set_lobby w :
  identified w → identified (set_lobby (Some LobbyRoom) w).
Proof. intros (_ & ? & ? & ?). by repeat split. Qed.

Lemma identified_set_mySessionId s w :
  identified w → identified (set_mySessionId (Some s) w).
Proof. intros (? & _ & ? & ?). by repeat split. Qed.

Lemma identified_set_webRTC r w :
  identified w → identified (set_webRTC (Some r) w).
Proof. intros (? & ? & _ & ?). by repeat split. Qed.

Lemma identified_alter_room f rid w :
  identified w → identified (set_rooms (alter f rid (rooms w)) w).
Proof.
  intros (? & ? & ? & r & ? & ?). repeat split; try done.
  exists r. simpl. by rewrite length_alter.
Qed.

Lemma identified_alloc_room x w :
  identified w → identified (set_rooms (rooms w ++ [x]) w).
Proof.
  intros (? & ? & ? & r & ? & ?). repeat split; try done.
  exists r. simpl. rewrite length_app. split; [done|lia].
Qed.

Lemma identified_set_room rid w :
  rid < length (rooms w) → identified w →
  identified (set_room (Some rid) w).
Proof. intros ? (? & ? & ? & _). repeat split; try done. by exists rid. Qed.
End Identified.

Create HintDb identified.

#[local] Hint Resolve identified_set_trace identified_set_pending
  identified_set_playerObjs identified_set_tableObjs
  identified_set_tableTalkManager identified_set_myUserId identified_set_lobby
  identified_set_mySessionId identified_set_webRTC identified_alter_room
  identified_alloc_room : identified.

(** Closes the primitive steps a [preserves identified] goal breaks into. *)
Ltac pres_identified :=
  pres;
  try (unfold emit, dispatch, console_log, act, suspend, modify_room,
         modify_player, modify_table;
       match goal with
       | |- preserves _ (modify _) =>
           apply preserves_modify; intros; eauto with identified
       end).

Lemma identified_initialize : preserves identified initialize.
Proof.
  unfold initialize, lobby_leave, attach_room, room_onMessage,
    room_onStateChange.
  pres_identified.
Qed.

Lemma identified_message_callback m payload :
  preserves identified (message_callback m payload).
Proof.
  destruct m; simpl;
    unfold on_STOP_TABLE_TALK, on_ADD_CHAT_MESSAGE, on_DISCONNECT_STREAM,
      on_RECEIVE_DM, on_SEND_ROOM_DATA, rtc;
    pres_identified.
Qed.

Lemma identified_deliver rid n : preserves identified (deliver rid n).
Proof.
  unfold deliver. apply preserves_bind; [pres|intros r].
  destruct n;
    unfold players_onAdd, player_onChange, players_onRemove, tables_onAdd,
      connectedUser_onAdd_listener, connectedUser_onRemove_listener,
      chatMessages_onAdd, on_stateChange, rtc;
    pres_identified.
  apply identified_message_callback.
Qed.

Lemma identified_invoke c : preserves identified (invoke c).
Proof.
  destruct c; simpl;
    unfold joinOrCreatePublic, joinCustomById, createCustom, updatePlayer,
      updatePlayerName, readyToConnect, videoConnected,
      playerStreamDisconnect, connectToTable, updateChairStatus,
      disconnectFromTable, onStopTableTalk, addChatMessage,
      sendPrivateMessage, checkPrivateMessage, room_send, rtc;
    pres_identified.
Qed.

Lemma identified_step s : ∀ w, identified w → identified (step w s).
Proof.
  intros w Hw. unfold step.
  assert (identified (world_of (step_body s w))) as H.
  { destruct s as [c|i s|rid n|b]; simpl.
    - by apply identified_invoke.
    - run_m. destruct (pending w !! i) as [k|]; [|done]. simpl.
      destruct s as [sid|]; [|done].
      assert (identified (set_pending (delete i (pending w)) w)) as Hw'
        by done.
      revert Hw'. generalize (set_pending (delete i (pending w)) w).
      intros w1 Hw1.
      destruct k; simpl.
      + unfold joinLobbyRoom_resume. run_m. simpl.
        by apply identified_set_trace, identified_set_lobby.
      + unfold alloc_room, joinOrCreatePublic_resume. run_m. simpl.
        apply identified_initialize. destruct Hw1 as (? & ? & ? & _).
        repeat split; try done. eexists. split; [done|]. simpl.
        rewrite length_app. simpl. lia.
      + unfold alloc_room, joinCustomById_resume. run_m. simpl.
        apply identified_initialize. destruct Hw1 as (? & ? & ? & _).
        repeat split; try done. eexists. split; [done|]. simpl.
        rewrite length_app. simpl. lia.
      + unfold alloc_room, createCustom_resume. run_m. simpl.
        apply identified_initialize. destruct Hw1 as (? & ? & ? & _).
        repeat split; try done. eexists. split; [done|]. simpl.
        rewrite length_app. simpl. lia.
    - run_m. destruct (decide _); [|done]. by apply identified_deliver.
    - done. }
  destruct (step_body s w); simpl in *; [done|].
  by apply identified_set_trace.
Qed.

(** *** Without listeners, no listener runs *)

Section Quiet.
Lemma quiet_set_trace t w : quiet w → quiet (set_trace t w).
Proof. done. Qed.

Lemma quiet_set_pending k w : quiet w → quiet (set_pending k w).
Proof. done. Qed.

Lemma quiet_alter_room f rid w :
  (∀ r, room_listening (f r) = room_listening r) →
  quiet w → quiet (set_rooms (alter f rid (rooms w)) w).
Proof.
  intros Hf [Hok (Hr & Hp & Ht)]. split.
  - intros r Hroom. simpl. rewrite length_alter. by apply Hok.
  - repeat split; try done. simpl. apply Forall_alter; [done|].
    intros r _ Hl. by rewrite Hf.
Qed.

Lemma quiet_alloc_room sid w :
  quiet w → quiet (set_rooms (rooms w ++ [new_room sid]) w).
Proof.
  intros [Hok (Hr & Hp & Ht)]. split.
  - intros r Hroom. simpl. rewrite length_app. specialize (Hok r Hroom).
    lia.
  - repeat split; try done. simpl. apply Forall_app. split; [done|].
    by repeat constructor.
Qed.

Lemma quiet_alter_player f p w :
  (∀ x, player_listening (f x) = player_listening x) →
  quiet w → quiet (set_playerObjs (alter f p (playerObjs w)) w).
Proof.
  intros Hf [Hok (Hr & Hp & Ht)]. split; [done|].
  repeat split; try done. simpl. apply Forall_alter; [done|].
  intros x _ Hl. by rewrite Hf.
Qed.

Lemma quiet_alloc_player n w :
  quiet w → quiet (set_playerObjs (playerObjs w ++ [mkPlayer n None]) w).
Proof.
  intros [Hok (Hr & Hp & Ht)]. split; [done|].
  repeat split; try done. simpl. apply Forall_app. split; [done|].
  by repeat constructor.
Qed.

Lemma quiet_alter_table f t w :
  (∀ x, table_listening (f x) = table_listening x) →
  quiet w → quiet (set_tableObjs (alter f t (tableObjs w)) w).
Proof.
  intros Hf [Hok (Hr & Hp & Ht)]. split; [done|].
  repeat split; try done. simpl. apply Forall_alter; [done|].
  intros x _ Hl. by rewrite Hf.
Qed.

Lemma quiet_alloc_table w :
  quiet w → quiet (set_tableObjs (tableObjs w ++ [mkTable [] None None]) w).
Proof.
  intros [Hok (Hr & Hp & Ht)]. split; [done|].
  repeat split; try done. simpl. apply Forall_app. split; [done|].
  by repeat constructor.
Qed.

Lemma apply_changes_listening changes p :
  player_listening (apply_changes changes p) = player_listening p.
Proof.
  unfold apply_changes. revert p.
  induction changes as [|c changes IH]; intros p; [done|].
  simpl. rewrite IH. by destruct (String.eqb _ _).
Qed.

(** The slots of a room, a player and a table of a quiet world. *)
Lemma quiet_room w rid :
  quiet w → rid < length (rooms w) →
  let r := rooms w !!! rid in
  players_onAdd_set r = false ∧ players_onRemove_set r = false
  ∧ tables_onAdd_set r = false ∧ chatMessages_onAdd_set r = false
  ∧ messageHandlers r = [] ∧ stateChangeHandlers r = 0.
Proof.
  intros [_ (Hr & _ & _)] Hrid r.
  pose proof (Forall_lookup_total_1 _ _ rid Hr Hrid) as H.
  fold r in H. unfold room_listening in H. rewrite !orb_false_iff in H.
  destruct H as (((((Ha & Hb) & Hc) & Hd) & He) & Hf).
  apply bool_decide_eq_false in He, Hf.
  repeat split; try done.
  - destruct (messageHandlers r); [done|]. by destruct He.
  - destruct (stateChangeHandlers r); [done|]. lia.
Qed.

Lemma quiet_player w p :
  quiet w → onChange (playerObjs w !!! p) = None.
Proof.
  intros [_ (_ & Hp & _)]. rewrite list_lookup_total_alt.
  destruct (playerObjs w !! p) as [x|] eqn:Hx; simpl; [|done].
  pose proof (Forall_lookup_1 _ _ _ _ Hp Hx) as H. simpl in H.
  unfold player_listening in H. apply bool_decide_eq_false in H.
  destruct (onChange x); [|done]. by destruct H.
Qed.

Lemma quiet_table w t :
  quiet w →
  connectedUser_onAdd (tableObjs w !!! t) = None
  ∧ connectedUser_onRemove (tableObjs w !!! t) = None.
Proof.
  intros [_ (_ & _ & Ht)]. rewrite list_lookup_total_alt.
  destruct (tableObjs w !! t) as [x|] eqn:Hx; simpl; [|done].
  pose proof (Forall_lookup_1 _ _ _ _ Ht Hx) as H. simpl in H.
  unfold table_listening in H. apply orb_false_elim in H as [H1 H2].
  apply bool_decide_eq_false in H1, H2.
  destruct (connectedUser_onAdd x), (connectedUser_onRemove x); try done;
    exfalso; eauto.
Qed.
End Quiet.

Lemma quiet_deliver rid n w :
  quiet w → rid < length (rooms w) → quiet (world_of (deliver rid n w)).
Proof.
  intros Hw Hrid.
  destruct (quiet_room w rid Hw Hrid) as (H1 & H2 & H3 & H4 & H5 & H6).
  unfold deliver. run_m. destruct n.
  - (* players_add *)
    rewrite H1. simpl.
    apply (quiet_alter_room _ rid
             (set_playerObjs (playerObjs w ++ [mkPlayer name0 None]) w));
      [done|].
    by apply quiet_alloc_player.
  - (* player_change *)
    destruct (players (rooms w !!! rid) !! key) as [player|]; [|done].
    simpl.
    pose proof (quiet_alter_player (apply_changes changes) player w
                  (apply_changes_listening changes) Hw) as Hw'.
    pose proof (quiet_player _ player Hw') as Hq. simpl in Hq.
    by rewrite Hq.
  - (* players_remove *)
    destruct (players (rooms w !!! rid) !! key) as [player|]; [|done].
    rewrite H2. simpl. by apply quiet_alter_room.
  - (* tables_add *)
    rewrite H3. simpl.
    apply (quiet_alter_room _ rid
             (set_tableObjs (tableObjs w ++ [mkTable [] None None]) w));
      [done|].
    by apply quiet_alloc_table.
  - (* connectedUser_add *)
    destruct (tables (rooms w !!! rid) !! table_key) as [table|]; [|done].
    simpl. destruct (quiet_table w table Hw) as [-> _].
    by apply quiet_alter_table.
  - (* connectedUser_remove *)
    destruct (tables (rooms w !!! rid) !! table_key) as [table|]; [|done].
    simpl. destruct (connectedUser (tableObjs w !!! table) !! index);
      [|done].
    simpl. destruct (quiet_table w table Hw) as [_ ->].
    by apply quiet_alter_table.
  - (* chatMessages_add *)
    rewrite H4. simpl. by apply quiet_alter_room.
  - (* inbound *)
    by rewrite H5.
  - (* stateChange *)
    by rewrite H6.
Qed.

Lemma quiet_invoke c : preserves quiet (invoke c).
Proof.
  destruct c; simpl;
    unfold joinOrCreatePublic, joinCustomById, createCustom, updatePlayer,
      updatePlayerName, readyToConnect, videoConnected,
      playerStreamDisconnect, connectToTable, updateChairStatus,
      disconnectFromTable, onStopTableTalk, addChatMessage,
      sendPrivateMessage, checkPrivateMessage, room_send, rtc;
    pres;
    unfold emit, console_log, act, suspend;
    apply preserves_modify; intros;
    auto using quiet_set_trace, quiet_set_pending.
Qed.

Lemma Inv_initialized rid w :
  quiet w → room w = Some rid → lobby w = Some LobbyRoom →
  Inv (initialized rid w).
Proof.
  intros [Hok _] Hroom Hlobby.
  assert (identified (initialized rid w)) as H.
  { unfold initialized. repeat split; simpl; try (by eexists).
    exists rid. rewrite length_alter. auto. }
  split; [|by right].
  intros r Hr. destruct H as (_ & _ & _ & r' & Hr' & ?). congruence.
Qed.

Lemma Inv_initialize w : quiet w → Inv (world_of (initialize w)).
Proof.
  intros Hw.
  destruct (initialize_cases w) as [->| [->|(rid & H1 & H2 & ->)]]; simpl.
  - destruct Hw. split; [done|by left].
  - destruct Hw. split; [done|by left].
  - by apply Inv_initialized.
Qed.

Lemma quiet_join_resumed sid w :
  quiet w →
  quiet (set_trace (trace w ++ [WriteRoom (length (rooms w))])
           (set_room (Some (length (rooms w)))
              (set_rooms (rooms w ++ [new_room sid]) w))).
Proof.
  intros Hw. apply quiet_set_trace.
  destruct (quiet_alloc_room sid w Hw) as [_ Hp]. split; [|done].
  intros r Hr. simpl in *. injection Hr as <-. rewrite length_app. simpl.
  lia.
Qed.

Lemma Inv_identified w : identified w → Inv w.
Proof.
  intros H. split; [|by right].
  destruct H as (_ & _ & _ & r & Hr & ?). intros r' Hr'. congruence.
Qed.

Lemma Inv_quiet w : quiet w → Inv w.
Proof. intros [? ?]. split; [done|by left]. Qed.

Lemma quiet_step s w : quiet w → Inv (step w s).
Proof.
  intros Hw. unfold step.
  assert (Inv (world_of (step_body s w))) as H.
  { destruct s as [c|i s|rid n|b]; simpl.
    - by apply Inv_quiet, quiet_invoke.
    - run_m. destruct (pending w !! i) as [k|]; [|by apply Inv_quiet].
      simpl. destruct s as [sid|]; [|by apply Inv_quiet].
      assert (quiet (set_pending (delete i (pending w)) w)) as Hw1 by done.
      revert Hw1. generalize (set_pending (delete i (pending w)) w).
      intros w1 Hw1.
      destruct k; simpl.
      + unfold joinLobbyRoom_resume. run_m. simpl. by apply Inv_quiet.
      + unfold alloc_room, joinOrCreatePublic_resume. run_m. simpl.
        apply Inv_initialize.
        by apply (quiet_set_trace _ (set_myUserId _ _)), quiet_join_resumed.
      + unfold alloc_room, joinCustomById_resume. run_m. simpl.
        apply Inv_initialize. by apply quiet_join_resumed.
      + unfold alloc_room, createCustom_resume. run_m. simpl.
        apply Inv_initialize. by apply quiet_join_resumed.
    - run_m. destruct (decide _); [|by apply Inv_quiet].
      by apply Inv_quiet, quiet_deliver.
    - by apply Inv_quiet. }
  destruct (step_body s w); simpl in *; [done|].
  destruct H as [Hok [Hp|Hi]]; [by apply Inv_quiet|by apply Inv_identified].
Qed.

(** The invariant of the event loop. *)
Lemma Inv_step s w : Inv w → Inv (step w s).
Proof.
  intros [Hok [Hp|Hi]].
  - by apply quiet_step.
  - by apply Inv_identified, identified_step.
Qed.

Lemma Inv_boot : Inv boot.
Proof.
  split; [done|]. left. repeat split; constructor.
Qed.

Lemma Inv_run steps : ∀ w, Inv w → Inv (run w steps).
Proof.
  induction steps as [|s steps IH]; intros w Hw; [done|].
  simpl. by apply IH, Inv_step.
Qed.

Lemma Inv_reachable w : reachable w → Inv w.
Proof. intros [steps ->]. apply Inv_run, Inv_boot. Qed.

(** *** Where a listener is installed, the identity is known *)

Lemma listening_room_identified w rid r :
  Inv w → rooms w !! rid = Some r → room_listening r = true →
  identified w.
Proof.
  intros [_ [(Hr & _ & _)|Hi]] Hrid Hl; [|done].
  pose proof (Forall_lookup_1 _ _ _ _ Hr Hrid) as H. simpl in H. congruence.
Qed.

Lemma existsb_Forall_false {X} (f : X → bool) (l : list X) :
  Forall (λ x, f x = false) l → existsb f l = false.
Proof.
  induction 1 as [|x l Hx _ IH]; [done|]. simpl. by rewrite Hx, IH.
Qed.

Lemma has_listener_identified w :
  Inv w → has_listener w = true → identified w.
Proof.
  intros [_ [(Hr & Hp & Ht)|Hi]] Hl; [|done].
  unfold has_listener in Hl.
  rewrite !existsb_Forall_false in Hl by done. discriminate.
Qed.



(** ** Removal of a player *)

(** C4. Along every run of the event loop, in a room on which [initialize]
    has installed the remove listener, every remove notification of a key of
    the players collection emits [PLAYER_LEFT] for that key and then deletes
    the key's video stream and on-called video stream, whatever happened
    before: no disconnect-stream message is needed. *)
Theorem players_remove_tears_down steps rid r key player :
  let w := run boot steps in
  rooms w !! rid = Some r → players_onRemove_set r = true →
  players r !! key = Some player →
  since w (step w (Notify rid (players_remove key)))
  = [Emit (PLAYER_LEFT key);
     RTC (deleteVideoStream (JStr key));
     RTC (deleteOnCalledVideoStream (JStr key));
     Dispatch (pushPlayerLeftMessage (name (playerObjs w !!! player)));
     Dispatch (removePlayerNameMap key)].
Proof.
  intros w Hrid Hset Hkey.
  assert (identified w) as (_ & _ & [rtc Hrtc] & _).
  { eapply listening_room_identified; [apply Inv_run, Inv_boot|done|].
    unfold room_listening. rewrite Hset. by destruct (players_onAdd_set r). }
  unfold step, step_body. run_m.
  destruct (decide (rid < length (rooms w))) as [_|Hn];
    [|by apply lookup_lt_Some in Hrid].
  unfold deliver. run_m.
  rewrite (list_lookup_total_correct _ _ _ Hrid), Hkey, Hset. simpl.
  rewrite players_onRemove_run. simpl. rewrite Hrtc. by since_app.
Qed.

Lemma players_remove_tears_down_witness :
  since (run boot s2_is_alice)
    (step (run boot s2_is_alice) (Notify 0 (players_remove "s2")))
  = [Emit (PLAYER_LEFT "s2");
     RTC (deleteVideoStream (JStr "s2"));
     RTC (deleteOnCalledVideoStream (JStr "s2"));
     Dispatch (pushPlayerLeftMessage
                 (name (playerObjs (run boot s2_is_alice) !!! 0)));
     Dispatch (removePlayerNameMap "s2")].
Proof.
  apply (players_remove_tears_down s2_is_alice 0
           (rooms (run boot s2_is_alice) !!! 0) "s2" 0);
    vm_compute; reflexivity.
Defined.

(** ** Every room is initialised at most once *)

Lemma invoke_frame (P : World → Prop) c :
  (∀ t w, P w → P (set_trace t w)) →
  (∀ k w, P w → P (set_pending k w)) →
  preserves P (invoke c).
Proof.
  intros Ht Hk.
  destruct c; simpl;
    unfold joinOrCreatePublic, joinCustomById, createCustom, updatePlayer,
      updatePlayerName, readyToConnect, videoConnected,
      playerStreamDisconnect, connectToTable, updateChairStatus,
      disconnectFromTable, onStopTableTalk, addChatMessage,
      sendPrivateMessage, checkPrivateMessage, room_send, rtc;
    pres;
    unfold emit, console_log, act, suspend;
    apply preserves_modify; intros; auto.
Qed.

Lemma once_alter_room f rid w :
  (∀ r, handlers_of (f r) = handlers_of r) →
  rooms_once w → rooms_once (set_rooms (alter f rid (rooms w)) w).
Proof.
  intros Hf Hw. unfold rooms_once. simpl. apply Forall_alter; [done|].
  intros r _ Hr. unfold initialised_once. by rewrite Hf.
Qed.

Ltac pres_once :=
  pres;
  try (unfold emit, dispatch, console_log, act, suspend, modify_room,
         modify_player, modify_table;
       apply preserves_modify; intros;
       first [ assumption | by apply once_alter_room ]).

Lemma once_message_callback m payload :
  preserves rooms_once (message_callback m payload).
Proof.
  destruct m; simpl;
    unfold on_STOP_TABLE_TALK, on_ADD_CHAT_MESSAGE, on_DISCONNECT_STREAM,
      on_RECEIVE_DM, on_SEND_ROOM_DATA, rtc;
    pres_once.
Qed.

Lemma once_deliver rid n : preserves rooms_once (deliver rid n).
Proof.
  unfold deliver. apply preserves_bind; [pres|intros r].
  destruct n;
    unfold players_onAdd, player_onChange, players_onRemove, tables_onAdd,
      connectedUser_onAdd_listener, connectedUser_onRemove_listener,
      chatMessages_onAdd, on_stateChange, rtc;
    pres_once.
  apply once_message_callback.
Qed.

(** [initialize] on a room that was just allocated. *)
Lemma once_initialize_fresh sid w :
  rooms_once w →
  room w = Some (length (rooms w)) →
  rooms_once
    (world_of (initialize (set_rooms (rooms w ++ [new_room sid]) w))).
Proof.
  intros Hw Hroom.
  assert (rooms_once (set_rooms (rooms w ++ [new_room sid]) w)) as Hw'.
  { apply Forall_app. split; [done|]. repeat constructor. }
  destruct (initialize_cases (set_rooms (rooms w ++ [new_room sid]) w))
    as [->| [->|(rid & H1 & H2 & ->)]]; try done.
  simpl in H1. rewrite Hroom in H1. injection H1 as <-.
  unfold rooms_once, initialized. simpl.
  rewrite (alter_app_r_alt _ (rooms w) _ (length (rooms w))) by done.
  rewrite Nat.sub_diag. apply Forall_app. split; [done|].
  constructor; [by right|constructor].
Qed.

Lemma once_step s w : rooms_once w → rooms_once (step w s).
Proof.
  intros Hw. unfold step.
  assert (rooms_once (world_of (step_body s w))) as H.
  { destruct s as [c|i s|rid n|b]; simpl.
    - by apply invoke_frame.
    - run_m. destruct (pending w !! i) as [k|]; [|done]. simpl.
      destruct s as [sid|]; [|done].
      destruct k; simpl; try done.
      + unfold alloc_room, joinOrCreatePublic_resume. run_m. simpl.
        apply (once_initialize_fresh sid
                 (mkWorld (Some (length (rooms w))) (lobby w) (webRTC w)
                    (mySessionId w) (Some userId) (rooms w) (playerObjs w)
                    (tableObjs w) (tableTalkManager w)
                    (delete i (pending w))
                    ((trace w ++ [WriteRoom (length (rooms w))])
                     ++ [WriteMyUserId userId]))); done.
      + unfold alloc_room, joinCustomById_resume. run_m. simpl.
        apply (once_initialize_fresh sid
                 (mkWorld (Some (length (rooms w))) (lobby w) (webRTC w)
                    (mySessionId w) (myUserId w) (rooms w) (playerObjs w)
                    (tableObjs w) (tableTalkManager w)
                    (delete i (pending w))
                    (trace w ++ [WriteRoom (length (rooms w))]))); done.
      + unfold alloc_room, createCustom_resume. run_m. simpl.
        apply (once_initialize_fresh sid
                 (mkWorld (Some (length (rooms w))) (lobby w) (webRTC w)
                    (mySessionId w) (myUserId w) (rooms w) (playerObjs w)
                    (tableObjs w) (tableTalkManager w)
                    (delete i (pending w))
                    (trace w ++ [WriteRoom (length (rooms w))]))); done.
    - run_m. destruct (decide _); [|done]. by apply once_deliver.
    - done. }
  by destruct (step_body s w).
Qed.

Lemma once_run steps : ∀ w, rooms_once w → rooms_once (run w steps).
Proof.
  induction steps as [|s steps IH]; intros w Hw; [done|].
  simpl. by apply IH, once_step.
Qed.

Lemma once_boot : rooms_once boot.
Proof. constructor. Qed.

(** ** The aggregate player count *)

Lemma on_stateChange_run w rid :
  room w = Some rid →
  on_stateChange w
  = Ret tt (set_trace
              (trace w
               ++ [Dispatch (setNumPlayer (size (players (rooms w !!! rid))))])
              w).
Proof. intros H. unfold on_stateChange. run_m. by rewrite H. Qed.

(** C8. Along every run of the event loop, every coarse state-change
    notification of a room on which [initialize] has registered the
    state-change handler publishes, as the new player count, the size that
    the players collection of the active room has at that moment; the
    notification carries nothing else, so it does not matter which
    collection changed. *)
Theorem stateChange_publishes_player_count steps rid r :
  let w := run boot steps in
  rooms w !! rid = Some r → 0 < stateChangeHandlers r →
  ∃ active a,
    room w = Some active ∧ rooms w !! active = Some a
    ∧ since w (step w (Notify rid stateChange))
      = [Dispatch (setNumPlayer (size (players a)))].
Proof.
  intros w Hrid Hn.
  assert (stateChangeHandlers r = 1) as H1.
  { pose proof (once_run steps boot once_boot) as Ho.
    pose proof (Forall_lookup_1 _ _ _ _ Ho Hrid) as [H|H];
      unfold handlers_of in H; simpl in H; injection H as _ _ _ _ _ H;
      [fold w in Hn; lia|done]. }
  assert (identified w) as (_ & _ & _ & active & Hroom & Hlt).
  { eapply listening_room_identified; [apply Inv_run, Inv_boot|done|].
    unfold room_listening. rewrite H1. simpl. by rewrite !orb_true_r. }
  destruct (lookup_lt_is_Some_2 _ _ Hlt) as [a Ha].
  exists active, a. repeat split; try done.
  unfold step, step_body. run_m.
  destruct (decide (rid < length (rooms w))) as [_|Hne];
    [|by apply lookup_lt_Some in Hrid].
  unfold deliver. run_m. rewrite (list_lookup_total_correct _ _ _ Hrid), H1.
  simpl. cbv beta iota delta [mbind M_bind].
  rewrite (on_stateChange_run w active Hroom). simpl.
  rewrite (list_lookup_total_correct _ _ _ Ha). by since_app.
Qed.

Lemma stateChange_publishes_player_count_witness :
  ∃ active a,
    room (run boot s2_is_alice) = Some active
    ∧ rooms (run boot s2_is_alice) !! active = Some a
    ∧ since (run boot s2_is_alice)
        (step (run boot s2_is_alice) (Notify 0 stateChange))
      = [Dispatch (setNumPlayer (size (players a)))].
Proof.
  apply (stateChange_publishes_player_count s2_is_alice 0
           (rooms (run boot s2_is_alice) !!! 0)).
  - vm_compute. reflexivity.
  - vm_compute. lia.
Defined.

Example one_remote_player_counted :
  since (run boot s2_is_alice)
    (step (run boot s2_is_alice) (Notify 0 stateChange))
  = [Dispatch (setNumPlayer 1)].
Proof. vm_compute. reflexivity. Qed.

(** ** Joins that resolve out of order *)

(** A join call that reaches its [await] leaves its continuation behind
    and changes nothing of the session. *)
Lemma join_call_run c k w :
  join_continuation c = Some k →
  pending (step w (Invoke c)) = pending w ++ [k]
  ∧ room (step w (Invoke c)) = room w
  ∧ lobby (step w (Invoke c)) = lobby w
  ∧ mySessionId (step w (Invoke c)) = mySessionId w
  ∧ myUserId (step w (Invoke c)) = myUserId w
  ∧ rooms (step w (Invoke c)) = rooms w.
Proof.
  intros Hc. destruct c; try discriminate; simpl in Hc.
  - by injection Hc as <-.
  - by injection Hc as <-.
  - destruct roomData; try discriminate; by injection Hc as <-.
Qed.

Lemma join_continuation_room c k :
  join_continuation c = Some k → is_room_join k = true.
Proof.
  destruct c; try discriminate; simpl.
  - by intros [= <-].
  - by intros [= <-].
  - destruct (nullish roomData); [discriminate|]. by intros [= <-].
Qed.

(** The resumption of a room join: the new room becomes the active one
    whatever the lobby; with the lobby joined [initialize] completes on it,
    without it [initialize] raises before it records or registers
    anything. *)
Lemma settle_join w i k sid :
  pending w !! i = Some k → is_room_join k = true →
  let w' := step w (Settle i (Fulfilled sid)) in
  room w' = Some (length (rooms w))
  ∧ pending w' = delete i (pending w)
  ∧ lobby w' = lobby w
  ∧ myUserId w' = recorded_user k (myUserId w)
  ∧ match lobby w with
    | Some _ =>
        rooms w' = rooms w ++ [init_room (new_room sid)]
        ∧ mySessionId w' = Some sid
    | None =>
        rooms w' = rooms w ++ [new_room sid]
        ∧ mySessionId w' = mySessionId w
    end.
Proof.
  intros Hi Hk. simpl. unfold step, step_body. run_m. rewrite Hi. simpl.
  destruct (lobby w) as [[]|] eqn:Hl;
    destruct k; try discriminate; simpl;
    unfold alloc_room, joinOrCreatePublic_resume, joinCustomById_resume,
      createCustom_resume; run_m; simpl.
  1-3: erewrite initialize_run by (simpl; done); simpl;
    rewrite list_lookup_total_middle by done;
    rewrite (alter_app_r_alt _ _ _ (length (rooms w))) by done;
    rewrite Nat.sub_diag; done.
  all: erewrite initialize_no_lobby by (simpl; done); done.
Qed.

Lemma chatMessages_add_run w rid r item :
  rooms w !! rid = Some r → chatMessages_onAdd_set r = true →
  since w (step w (Notify rid (chatMessages_add item)))
  = [Dispatch (pushChatMessage item)].
Proof.
  intros Hrid Hset. unfold step, step_body. run_m.
  destruct (decide (rid < length (rooms w))) as [_|Hne];
    [|by apply lookup_lt_Some in Hrid].
  unfold deliver. run_m. rewrite (list_lookup_total_correct _ _ _ Hrid), Hset.
  simpl. by since_app.
Qed.

(** C3, as amended. Let two join operations, each a public join, a join
    by id or the creation of a custom room, be initiated, and let the second
    resolve before the first. Each resolution makes its session the active
    one: the session that resolves first is active until the other
    resolves, and the session of the join that resolves last, the earlier
    one, is active in the end; the user id recorded is that of the public
    join that resolved last, if any. With the lobby joined, each resolution
    also runs [initialize] on its room and records its session id, and
    nothing is discarded: the room that resolved first keeps the listeners
    [initialize] registered on it, and its notifications still take effect
    (here, a chat message added to it is pushed to the store). *)
Theorem late_join_overwrites w c1 c2 k1 k2 s1 s2 item :
  join_continuation c1 = Some k1 → join_continuation c2 = Some k2 →
  let n := length (pending w) in
  let first := length (rooms w) in
  let w2 := run w [Invoke c1; Invoke c2] in
  let w3 := step w2 (Settle (S n) (Fulfilled s2)) in
  let w4 := step w3 (Settle n (Fulfilled s1)) in
  room w3 = Some first
  ∧ room w4 = Some (S first)
  ∧ myUserId w4 = recorded_user k1 (recorded_user k2 (myUserId w))
  ∧ (lobby w = Some LobbyRoom →
     mySessionId w3 = Some s2
     ∧ mySessionId w4 = Some s1
     ∧ rooms w4 !! first = Some (init_room (new_room s2))
     ∧ rooms w4 !! S first = Some (init_room (new_room s1))
     ∧ since w4 (step w4 (Notify first (chatMessages_add item)))
       = [Dispatch (pushChatMessage item)]).
Proof.
  intros Hc1 Hc2 n first w2 w3 w4.
  pose proof (join_continuation_room _ _ Hc1) as Hk1.
  pose proof (join_continuation_room _ _ Hc2) as Hk2.
  set (w1 := step w (Invoke c1)).
  destruct (join_call_run c1 k1 w Hc1) as (Hp1 & _ & Hl1 & _ & Hu1 & Hr1).
  destruct (join_call_run c2 k2 w1 Hc2) as (Hp2 & _ & Hl2 & _ & Hu2 & Hr2).
  fold w1 in Hp1, Hl1, Hu1, Hr1.
  change (step w1 (Invoke c2)) with w2 in Hp2, Hl2, Hu2, Hr2.
  rewrite Hp1 in Hp2. rewrite Hl1 in Hl2. rewrite Hu1 in Hu2.
  rewrite Hr1 in Hr2.
  assert (S n = length (pending w ++ [k1])) as Hn
    by (rewrite length_app; simpl; unfold n; lia).
  destruct (settle_join w2 (S n) k2 s2) as (Hroom3 & Hp3 & Hl3 & Hu3 & H3);
    [|done|].
  { rewrite Hp2, Hn. by apply list_lookup_middle. }
  fold w3 in Hroom3, Hp3, Hl3, Hu3, H3.
  rewrite Hr2 in Hroom3. rewrite Hl2 in Hl3, H3. rewrite Hr2 in H3.
  rewrite Hu2 in Hu3.
  assert (pending w3 = pending w ++ [k1]) as Hp3'.
  { rewrite Hp3, Hp2, Hn, delete_middle. by rewrite app_nil_r. }
  destruct (settle_join w3 n k1 s1) as (Hroom4 & _ & _ & Hu4 & H4);
    [|done|].
  { rewrite Hp3'. by apply list_lookup_middle. }
  fold w4 in Hroom4, Hu4, H4. rewrite Hl3 in H4. rewrite Hu3 in Hu4.
  assert (length (rooms w3) = S first) as Hlen.
  { destruct (lobby w); destruct H3 as [-> _]; rewrite length_app; simpl;
      unfold first; lia. }
  rewrite Hlen in Hroom4.
  split; [done|]. split; [done|]. split; [done|].
  intros Hl. rewrite Hl in H3, H4.
  destruct H3 as [Hrooms3 Hme3]. destruct H4 as [Hrooms4 Hme4].
  assert (rooms w4 !! first = Some (init_room (new_room s2))) as Hfirst.
  { rewrite Hrooms4, Hrooms3.
    rewrite lookup_app_l by (rewrite length_app; simpl; lia).
    by apply list_lookup_middle. }
  repeat split; try done.
  - rewrite Hrooms4. apply list_lookup_middle. by rewrite Hlen.
  - by apply (chatMessages_add_run w4 first _ item Hfirst).
Qed.

Lemma late_join_overwrites_witness :
  let w2 := run lobby_joined
              [Invoke (call_joinOrCreatePublic "u1");
               Invoke (call_joinCustomById "room-1" None)] in
  let w3 := step w2 (Settle 1 (Fulfilled "sB")) in
  let w4 := step w3 (Settle 0 (Fulfilled "sA")) in
  room w3 = Some 0
  ∧ room w4 = Some 1
  ∧ myUserId w4 = Some "u1"
  ∧ mySessionId w3 = Some "sB"
  ∧ mySessionId w4 = Some "sA"
  ∧ rooms w4 !! 0 = Some (init_room (new_room "sB"))
  ∧ rooms w4 !! 1 = Some (init_room (new_room "sA"))
  ∧ since w4 (step w4 (Notify 0 (chatMessages_add (JStr "hi"))))
    = [Dispatch (pushChatMessage (JStr "hi"))].
Proof.
  destruct (late_join_overwrites lobby_joined
              (call_joinOrCreatePublic "u1")
              (call_joinCustomById "room-1" None)
              (K_joinOrCreatePublic "u1") K_joinCustomById
              "sA" "sB" (JStr "hi") eq_refl eq_refl)
    as (H3 & H4 & Hu & H).
  split; [exact H3|]. split; [exact H4|]. split; [exact Hu|].
  apply H. reflexivity.
Defined.

(** C3, as stated, fails: when the first of two joins resolves after the
    second, the earlier, late-resolving join is not discarded, it becomes
    the active session; and the other session is not discarded either, since
    it was active in between and its room still reacts to notifications. *)
Lemma late_join_not_discarded :
  let w3 := run lobby_joined (take 3 two_joins) in
  let w4 := run lobby_joined two_joins in
  room w3 = Some 0
  ∧ room w4 = Some 1
  ∧ sessionId (rooms w4 !!! 1) = "sA"
  ∧ ¬ discarded w4 1
  ∧ ¬ discarded w4 0.
Proof.
  repeat split; try (vm_compute; reflexivity).
  - intros [H _]. by apply H.
  - intros [_ H]. specialize (H (chatMessages_add (JStr "hi"))).
    vm_compute in H. discriminate.
Qed.

End Props.

(** * Further properties of the code *)

Module Further.
Import Network Runtime Obs Scenarios Views Props.

(** ** Delivery to an existing room *)

Lemma notify_deliver w rid r n :
  rooms w !! rid = Some r →
  step_body (Notify rid n) w = deliver rid n w.
Proof.
  intros Hrid. unfold step_body. run_m.
  destruct (decide (rid < length (rooms w))) as [_|Hne]; [done|].
  by apply lookup_lt_Some in Hrid.
Qed.

(** ** The chat log *)

Lemma chat_append_step w rid r item :
  rooms w !! rid = Some r → chatMessages_onAdd_set r = true →
  step w (Notify rid (chatMessages_add item))
  = set_trace (trace w ++ [Dispatch (pushChatMessage item)])
      (set_rooms
         (alter (λ r, set_chatMessages (chatMessages r ++ [item]) r) rid
            (rooms w)) w).
Proof.
  intros Hrid Hset. unfold step. rewrite (notify_deliver _ _ _ _ Hrid).
  unfold deliver. run_m.
  by rewrite (list_lookup_total_correct _ _ _ Hrid), Hset.
Qed.

Lemma chat_appends_run items : ∀ w rid r,
  rooms w !! rid = Some r → chatMessages_onAdd_set r = true →
  trace (run w (chat_appends rid items))
  = trace w ++ map (λ item, Dispatch (pushChatMessage item)) items
  ∧ chatMessages <$> rooms (run w (chat_appends rid items)) !! rid
    = Some (chatMessages r ++ items).
Proof.
  induction items as [|item items IH]; intros w rid r Hrid Hset.
  - simpl. by rewrite !app_nil_r, Hrid.
  - simpl. rewrite (chat_append_step _ _ _ _ Hrid Hset).
    match goal with |- context [run ?x _] => set (w1 := x) end.
    assert (rooms w1 !! rid
            = Some (set_chatMessages (chatMessages r ++ [item]) r)) as H1.
    { unfold w1. simpl. by rewrite list_lookup_alter_eq, Hrid. }
    destruct (IH w1 rid _ H1 Hset) as [Ht Hc].
    rewrite Ht, Hc. unfold w1. simpl. by rewrite <- !app_assoc.
Qed.

(** X1. Appending items to the chat log of a room whose chat listener is
    installed pushes each item to the store, once and in the order of
    arrival, does nothing else, and leaves the items at the end of the
    replica's chat log. *)
Theorem chat_log_in_order w rid r items :
  rooms w !! rid = Some r → chatMessages_onAdd_set r = true →
  since w (run w (chat_appends rid items))
  = map (λ item, Dispatch (pushChatMessage item)) items
  ∧ chatMessages <$> rooms (run w (chat_appends rid items)) !! rid
    = Some (chatMessages r ++ items).
Proof.
  intros Hrid Hset.
  destruct (chat_appends_run items w rid r Hrid Hset) as [Ht Hc].
  split; [by apply since_app|done].
Qed.

Lemma chat_log_in_order_witness :
  since joined_world
    (run joined_world (chat_appends 0 [JStr "hi"; JStr "bye"]))
  = map (λ item, Dispatch (pushChatMessage item)) [JStr "hi"; JStr "bye"]
  ∧ chatMessages
    <$> rooms (run joined_world (chat_appends 0 [JStr "hi"; JStr "bye"])) !! 0
    = Some (chatMessages (rooms joined_world !!! 0)
            ++ [JStr "hi"; JStr "bye"]).
Proof.
  apply (chat_log_in_order joined_world 0 (rooms joined_world !!! 0)
           [JStr "hi"; JStr "bye"]);
    vm_compute; reflexivity.
Defined.

(** ** Inbound messages, once each *)

Lemma listening_room_initialised r :
  initialised_once r → room_listening r = true →
  handlers_of r = handlers_of (init_room (new_room "")).
Proof.
  intros [H|H] Hl; [|done]. exfalso.
  unfold handlers_of in H. simpl in H.
  injection H as H1 H2 H3 H4 H5 H6.
  unfold room_listening in Hl. rewrite H1, H2, H3, H4, H5, H6 in Hl.
  discriminate.
Qed.

(** X2. Along every run of the event loop, an inbound message delivered to a
    room that [initialize] has set up is handled exactly once: room data is
    stored as received, a chat broadcast becomes one dialog-bubble event (or
    one uncaught TypeError when the payload is [null] or [undefined]), a
    disconnect-stream signal deletes the sender's on-called video stream, a
    stop-table-talk signal reaches the table-talk manager if there is one,
    a private-message notice is logged, and the kinds that have no callback
    do nothing. *)
Theorem inbound_handled_once steps rid r m payload :
  let w := run boot steps in
  rooms w !! rid = Some r → room_listening r = true →
  since w (step w (Notify rid (inbound m payload)))
  = inbound_effect w m payload.
Proof.
  intros w Hrid Hl.
  assert (messageHandlers r
          = [SEND_ROOM_DATA; ADD_CHAT_MESSAGE; DISCONNECT_STREAM;
             STOP_TABLE_TALK; RECEIVE_DM]) as Hm.
  { pose proof (once_run steps boot once_boot) as Ho.
    pose proof (Forall_lookup_1 _ _ _ _ Ho Hrid) as Hr.
    pose proof (listening_room_initialised r Hr Hl) as H.
    unfold handlers_of in H. simpl in H. by injection H. }
  assert (identified w) as (_ & _ & [x Hx] & _).
  { eapply listening_room_identified; [apply Inv_run, Inv_boot|done..]. }
  unfold step. rewrite (notify_deliver _ _ _ _ Hrid). unfold deliver. run_m.
  rewrite (list_lookup_total_correct _ _ _ Hrid), Hm.
  destruct m; simpl; try by rewrite since_refl.
  - (* DISCONNECT_STREAM *)
    unfold on_DISCONNECT_STREAM. run_m. rewrite Hx. simpl. by since_app.
  - (* STOP_TABLE_TALK *)
    unfold on_STOP_TABLE_TALK. run_m.
    destruct (tableTalkManager w); simpl;
      [by since_app|by rewrite since_refl].
  - (* ADD_CHAT_MESSAGE *)
    unfold on_ADD_CHAT_MESSAGE.
    destruct payload; simpl; run_m; simpl; by since_app.
  - (* RECEIVE_DM *)
    unfold on_RECEIVE_DM. run_m. simpl. by since_app.
  - (* SEND_ROOM_DATA *)
    unfold on_SEND_ROOM_DATA. run_m. simpl. by since_app.
Qed.

Lemma inbound_handled_once_witness :
  since joined_world
    (step joined_world
       (Notify 0 (inbound SEND_ROOM_DATA (JObj [("name", JStr "town")]))))
  = inbound_effect joined_world SEND_ROOM_DATA (JObj [("name", JStr "town")]).
Proof.
  apply (inbound_handled_once join_as_s1 0 (rooms joined_world !!! 0));
    vm_compute; reflexivity.
Defined.

(** ** Outbound calls and the active room *)

(** Decides membership in an explicit list of sent messages. *)
Ltac sent_cases H :=
  repeat (apply elem_of_cons in H as [H|H];
          [injection H as -> _ _; reflexivity|]);
  by apply elem_of_nil in H.

(** X3. Whatever the call and its arguments, every message it sends goes to
    the room [this.room] refers to at that moment; with no such room
    nothing is sent. *)
Theorem sends_target_active_room c w rid m p :
  (rid, m, p) ∈ sent (since w (world_of (invoke c w))) →
  room w = Some rid.
Proof.
  intros H. destruct w as [room0 ? ? ? ? ? ? ? ? ? trace0]. simpl.
  destruct c; simpl invoke in H;
    unfold joinOrCreatePublic, joinCustomById, createCustom, updatePlayer,
      updatePlayerName, readyToConnect, videoConnected,
      playerStreamDisconnect, connectToTable, updateChairStatus,
      disconnectFromTable, onStopTableTalk, addChatMessage,
      sendPrivateMessage, checkPrivateMessage in H;
    try (destruct roomData as [| | | | |props]);
    try (destruct message as [| | | | |props]);
    cbv beta iota delta [destructure] in H;
    destruct room0 as [rid0|]; try destruct webRTC0;
    revert H; run_w; intros H;
    (erewrite since_app in H
       by (cbn [trace]; rewrite <- ?app_assoc; first
             [ reflexivity | symmetry; apply app_nil_r ]));
    simpl in H; sent_cases H.
Qed.

Lemma sends_target_active_room_witness :
  room joined_world = Some 0.
Proof.
  apply (sends_target_active_room (call_addChatMessage "hi") joined_world 0
           ADD_CHAT_MESSAGE (JObj [("content", JStr "hi")])).
  vm_compute. apply list_elem_of_here.
Defined.

(** X4. No call of the application, join calls included, changes the active
    room, the recorded identity, the replicas or the registered listeners:
    all a call leaves behind is its trace and, for a join call, the
    suspended continuation. *)
Theorem calls_keep_session c w :
  session (set_pending (pending w) (world_of (invoke c w))) = session w.
Proof.
  destruct w as [room0 ? ? ? ? ? ? ? ? ? trace0].
  destruct c; simpl invoke;
    unfold joinOrCreatePublic, joinCustomById, createCustom, updatePlayer,
      updatePlayerName, readyToConnect, videoConnected,
      playerStreamDisconnect, connectToTable, updateChairStatus,
      disconnectFromTable, onStopTableTalk, addChatMessage,
      sendPrivateMessage, checkPrivateMessage;
    try (destruct roomData as [| | | | |props]);
    try (destruct message as [| | | | |props]);
    cbv beta iota delta [destructure];
    destruct room0 as [rid0|]; try destruct webRTC0;
    unfold session; run_w; reflexivity.
Qed.

(** ** Joins that fail or come too early *)

(** X5. A join that is rejected changes nothing: the active room, the recorded
    identity, the lobby handle and the rooms stay as they were; the
    continuation is dropped and the rejection is passed on. *)
Theorem rejected_join_changes_nothing w i k :
  pending w !! i = Some k →
  session (step w (Settle i Reject))
  = session (set_pending (delete i (pending w)) w)
  ∧ since w (step w (Settle i Reject)) = [Uncaught].
Proof.
  intros Hi. unfold step, step_body. run_m. rewrite Hi. simpl.
  split; [done|]. by since_app.
Qed.

Lemma rejected_join_changes_nothing_witness :
  session (step boot (Settle 0 Reject))
  = session (set_pending (delete 0 (pending boot)) boot)
  ∧ since boot (step boot (Settle 0 Reject)) = [Uncaught].
Proof.
  apply (rejected_join_changes_nothing boot 0 K_joinLobbyRoom). reflexivity.
Defined.

(** X6. A room join that resolves before the lobby join leaves the session half
    set up: the room becomes the active room and the user id is recorded,
    but [initialize] raises on the missing lobby handle before it records
    the session id, creates the WebRTC instance or registers any listener.
    Messages can then be sent to the room while nothing coming from it is
    listened to. *)
Theorem join_before_lobby w i userId sid content :
  pending w !! i = Some (K_joinOrCreatePublic userId) → lobby w = None →
  let w' := step w (Settle i (Fulfilled sid)) in
  room w' = Some (length (rooms w))
  ∧ myUserId w' = Some userId
  ∧ mySessionId w' = mySessionId w
  ∧ webRTC w' = webRTC w
  ∧ rooms w' = rooms w ++ [new_room sid]
  ∧ since w w'
    = [WriteRoom (length (rooms w)); WriteMyUserId userId; Uncaught]
  ∧ sent (since w' (step w' (Invoke (call_addChatMessage content))))
    = [(length (rooms w), ADD_CHAT_MESSAGE,
        JObj [("content", JStr content)])].
Proof.
  intros Hi Hl. destruct w as [? lobby0 ? ? ? ? ? ? ? pending0 trace0].
  simpl in Hi, Hl. subst lobby0. simpl.
  unfold step, step_body. run_w. rewrite Hi.
  unfold resume, alloc_room, joinOrCreatePublic_resume. run_w.
  erewrite initialize_no_lobby by reflexivity.
  repeat split; try reflexivity.
  - since_app. done.
  - unfold invoke, addChatMessage. run_w. since_app. done.
Qed.

Lemma join_before_lobby_witness :
  let w := step boot (Invoke (call_joinOrCreatePublic "u1")) in
  let w' := step w (Settle 1 (Fulfilled "s1")) in
  room w' = Some (length (rooms w))
  ∧ myUserId w' = Some "u1"
  ∧ mySessionId w' = mySessionId w
  ∧ webRTC w' = webRTC w
  ∧ rooms w' = rooms w ++ [new_room "s1"]
  ∧ since w w' = [WriteRoom (length (rooms w)); WriteMyUserId "u1"; Uncaught]
  ∧ sent (since w' (step w' (Invoke (call_addChatMessage "hi"))))
    = [(length (rooms w), ADD_CHAT_MESSAGE, JObj [("content", JStr "hi")])].
Proof.
  apply (join_before_lobby
           (step boot (Invoke (call_joinOrCreatePublic "u1"))) 1 "u1" "s1"
           "hi");
    reflexivity.
Defined.

(** ** The recorded identity is the active room's *)

Lemma consistent_alter_room f rid w :
  (∀ r, sessionId (f r) = sessionId r) →
  identity_consistent w →
  identity_consistent (set_rooms (alter f rid (rooms w)) w).
Proof.
  intros Hf Hw s Hs. destruct (Hw s Hs) as (Hl & Hr & a & r & Ha & Hlk & Hsid).
  repeat split; try done. simpl.
  destruct (decide (rid = a)) as [->|Hne].
  - exists a, (f r). rewrite list_lookup_alter_eq, Hlk. by rewrite Hf.
  - exists a, r. by rewrite list_lookup_alter_ne.
Qed.

Ltac pres_consistent :=
  pres;
  try (unfold emit, dispatch, console_log, act, suspend, modify_room,
         modify_player, modify_table;
       match goal with
       | |- preserves _ (modify _) =>
           apply preserves_modify; intros;
           first [ assumption | by apply consistent_alter_room ]
       end).

Lemma consistent_message_callback m payload :
  preserves identity_consistent (message_callback m payload).
Proof.
  destruct m; simpl;
    unfold on_STOP_TABLE_TALK, on_ADD_CHAT_MESSAGE, on_DISCONNECT_STREAM,
      on_RECEIVE_DM, on_SEND_ROOM_DATA, rtc;
    pres_consistent.
Qed.

Lemma consistent_deliver rid n :
  preserves identity_consistent (deliver rid n).
Proof.
  unfold deliver. apply preserves_bind; [pres|intros r].
  destruct n;
    unfold players_onAdd, player_onChange, players_onRemove, tables_onAdd,
      connectedUser_onAdd_listener, connectedUser_onRemove_listener,
      chatMessages_onAdd, on_stateChange, rtc;
    pres_consistent.
  apply consistent_message_callback.
Qed.

(** [initialize] on a room that was just allocated and made active. *)
Lemma consistent_initialize_fresh sid w :
  (mySessionId w = None ∨ lobby w = Some LobbyRoom) →
  room w = Some (length (rooms w)) →
  identity_consistent
    (world_of (initialize (set_rooms (rooms w ++ [new_room sid]) w))).
Proof.
  intros Hw Hroom.
  destruct (lobby w) as [[]|] eqn:Hl.
  - erewrite initialize_run by (simpl; done). simpl.
    intros s Hs. simpl in Hs.
    rewrite list_lookup_total_middle in Hs by done. simpl in Hs.
    injection Hs as <-. simpl.
    rewrite list_lookup_total_middle by done. simpl.
    repeat split; try done.
    exists (length (rooms w)), (init_room (new_room sid)).
    repeat split; try done.
    rewrite list_lookup_alter_eq, list_lookup_middle by done. done.
  - erewrite initialize_no_lobby by (simpl; done). simpl.
    intros s Hs. simpl in Hs. destruct Hw as [Hw|Hw]; congruence.
Qed.

Lemma consistent_identified_or w :
  identity_consistent w → mySessionId w = None ∨ lobby w = Some LobbyRoom.
Proof.
  intros Hw. destruct (mySessionId w) as [s|] eqn:Hs; [|by left].
  right. by destruct (Hw s Hs).
Qed.

Lemma consistent_step s w :
  identity_consistent w → identity_consistent (step w s).
Proof.
  intros Hw. unfold step.
  assert (identity_consistent (world_of (step_body s w))) as H.
  { destruct s as [c|i s|rid n|b]; simpl.
    - by apply invoke_frame.
    - run_m. destruct (pending w !! i) as [k|]; [|done]. simpl.
      destruct s as [sid|]; [|done].
      pose proof (consistent_identified_or w Hw) as Hor.
      destruct k; simpl.
      + unfold joinLobbyRoom_resume. run_m. simpl.
        intros s Hs. destruct (Hw s Hs) as (? & ? & ?). done.
      + unfold alloc_room, joinOrCreatePublic_resume. run_m. simpl.
        apply (consistent_initialize_fresh sid
                 (mkWorld (Some (length (rooms w))) (lobby w) (webRTC w)
                    (mySessionId w) (Some userId) (rooms w) (playerObjs w)
                    (tableObjs w) (tableTalkManager w)
                    (delete i (pending w))
                    ((trace w ++ [WriteRoom (length (rooms w))])
                     ++ [WriteMyUserId userId]))); done.
      + unfold alloc_room, joinCustomById_resume. run_m. simpl.
        apply (consistent_initialize_fresh sid
                 (mkWorld (Some (length (rooms w))) (lobby w) (webRTC w)
                    (mySessionId w) (myUserId w) (rooms w) (playerObjs w)
                    (tableObjs w) (tableTalkManager w)
                    (delete i (pending w))
                    (trace w ++ [WriteRoom (length (rooms w))]))); done.
      + unfold alloc_room, createCustom_resume. run_m. simpl.
        apply (consistent_initialize_fresh sid
                 (mkWorld (Some (length (rooms w))) (lobby w) (webRTC w)
                    (mySessionId w) (myUserId w) (rooms w) (playerObjs w)
                    (tableObjs w) (tableTalkManager w)
                    (delete i (pending w))
                    (trace w ++ [WriteRoom (length (rooms w))]))); done.
    - run_m. destruct (decide _); [|done]. by apply consistent_deliver.
    - done. }
  by destruct (step_body s w).
Qed.

(** X7. Along every run of the event loop, whenever a session id is recorded it
    is the session id of the room [this.room] refers to, the WebRTC instance
    was created with that same id, and the lobby has been joined: a later
    join replaces all three together, and nothing else touches them. *)
Theorem identity_tracks_active_room steps :
  identity_consistent (run boot steps).
Proof.
  assert (∀ w, identity_consistent w → identity_consistent (run w steps))
    as H.
  { induction steps as [|s steps IH]; intros w Hw; [done|].
    simpl. by apply IH, consistent_step. }
  apply H. intros s Hs. discriminate.
Qed.

Example identity_after_two_joins :
  mySessionId (run lobby_joined two_joins) = Some "sA"
  ∧ room (run lobby_joined two_joins) = Some 1
  ∧ sessionId (rooms (run lobby_joined two_joins) !!! 1) = "sA".
Proof. vm_compute. repeat split. Qed.

(** ** Players: from the add to the events *)

Lemma apply_changes_onChange changes p :
  onChange (apply_changes changes p) = onChange p.
Proof.
  unfold apply_changes. revert p.
  induction changes as [|c changes IH]; intros p; [done|].
  simpl. rewrite IH. by destruct (String.eqb _ _).
Qed.

(** The add of a player to a room whose add listener is installed. *)
Lemma players_add_step w rid r key name0 :
  rooms w !! rid = Some r → players_onAdd_set r = true →
  let w' := step w (Notify rid (players_add key name0)) in
  let own := bool_decide (mySessionId w = Some key) in
  rooms w'
  = alter (λ r, set_players (<[key := length (playerObjs w)]> (players r)) r)
      rid (rooms w)
  ∧ playerObjs w'
    = playerObjs w ++ [mkPlayer name0 (if own then None else Some key)]
  ∧ trace w'
    = trace w
      ++ (if own then []
          else [Attach (player_onChange_slot (length (playerObjs w)))])
  ∧ mySessionId w' = mySessionId w ∧ myUserId w' = myUserId w.
Proof.
  intros Hrid Hset. simpl. unfold step.
  rewrite (notify_deliver _ _ _ _ Hrid). unfold deliver. run_m.
  rewrite (list_lookup_total_correct _ _ _ Hrid), Hset. simpl.
  rewrite players_onAdd_run. simpl.
  destruct (decide (mySessionId w = Some key)) as [Hme|Hme].
  - rewrite (bool_decide_eq_true_2 _ Hme). simpl.
    by rewrite app_nil_r.
  - rewrite (bool_decide_eq_false_2 _ Hme). simpl.
    repeat split; try done.
    rewrite (alter_app_r_alt _ _ _ (length (playerObjs w))) by done.
    by rewrite Nat.sub_diag.
Qed.

(** A change notification for a registered player: it reaches the change
    listener of the player object if one is attached, with the key the
    listener captured. *)
Lemma player_change_step w rid r key player obj changes :
  rooms w !! rid = Some r → players r !! key = Some player →
  playerObjs w !! player = Some obj →
  trace (step w (Notify rid (player_change key changes)))
  = trace w
    ++ match onChange obj with
       | Some captured =>
           flat_map (entry_actions player captured (myUserId w)) changes
       | None => []
       end.
Proof.
  intros Hrid Hkey Hobj. unfold step.
  rewrite (notify_deliver _ _ _ _ Hrid). unfold deliver. run_m.
  rewrite (list_lookup_total_correct _ _ _ Hrid), Hkey. simpl.
  rewrite list_lookup_total_alter_eq by (by eapply lookup_lt_Some).
  rewrite (list_lookup_total_correct _ _ _ Hobj), apply_changes_onChange.
  destruct (onChange obj) as [captured|].
  - rewrite player_onChange_run. done.
  - simpl. by rewrite app_nil_r.
Qed.

(** X8. The local player is never listened to: when the player whose key is the
    local session id is added to a room and then changes, no event is
    emitted and nothing is dispatched, whatever the changes. *)
Theorem own_player_is_silent w rid r me name0 changes :
  rooms w !! rid = Some r → players_onAdd_set r = true →
  mySessionId w = Some me →
  since w (run w [Notify rid (players_add me name0);
                  Notify rid (player_change me changes)])
  = [].
Proof.
  intros Hrid Hset Hme. simpl.
  destruct (players_add_step w rid r me name0 Hrid Hset)
    as (Hr & Hp & Ht & _ & _).
  rewrite (bool_decide_eq_true_2 _ Hme) in Hp, Ht.
  set (w1 := step w (Notify rid (players_add me name0))) in *.
  apply since_app.
  rewrite (player_change_step w1 rid
             (set_players (<[me := length (playerObjs w)]> (players r)) r)
             me (length (playerObjs w)) (mkPlayer name0 None)).
  - simpl. by rewrite Ht, !app_nil_r.
  - by rewrite Hr, list_lookup_alter_eq, Hrid.
  - simpl. apply lookup_insert_eq.
  - rewrite Hp. by apply list_lookup_middle.
Qed.

Lemma own_player_is_silent_witness :
  since joined_world
    (run joined_world
       [Notify 0 (players_add "s1" (JStr ""));
        Notify 0 (player_change "s1" [name_is "Dana"])])
  = [].
Proof.
  apply (own_player_is_silent joined_world 0 (rooms joined_world !!! 0) "s1");
    vm_compute; reflexivity.
Defined.

(** X9. A remote player is listened to from its add on: when a player whose key
    is not the local session id is added to a room, the add attaches the
    change listener and emits nothing, and a change notification that
    follows is translated with the player's key: per changed field the
    generic update, then the join event and the two store actions when the
    field sets a non-empty name, the store action carrying the local user
    id. *)
Theorem remote_player_is_translated w rid r key name0 changes :
  rooms w !! rid = Some r → players_onAdd_set r = true →
  mySessionId w ≠ Some key →
  let player := length (playerObjs w) in
  let w1 := step w (Notify rid (players_add key name0)) in
  let w2 := step w1 (Notify rid (player_change key changes)) in
  since w w1 = [Attach (player_onChange_slot player)]
  ∧ since w1 w2 = flat_map (entry_actions player key (myUserId w)) changes
  ∧ bus (since w1 w2) = flat_map (entry_events player key) changes.
Proof.
  intros Hrid Hset Hme player w1 w2.
  destruct (players_add_step w rid r key name0 Hrid Hset)
    as (Hr & Hp & Ht & _ & Hu).
  rewrite (bool_decide_eq_false_2 _ Hme) in Hp, Ht.
  fold w1 in Hr, Hp, Ht, Hu. fold player in Hp, Ht.
  assert (since w1 w2
          = flat_map (entry_actions player key (myUserId w)) changes) as H2.
  { apply since_app. unfold w2.
    rewrite (player_change_step w1 rid
               (set_players (<[key := player]> (players r)) r)
               key player (mkPlayer name0 (Some key))).
    - simpl. by rewrite Hu.
    - by rewrite Hr, list_lookup_alter_eq, Hrid.
    - simpl. apply lookup_insert_eq.
    - rewrite Hp. by apply list_lookup_middle. }
  split; [by apply since_app|]. split; [done|].
  by rewrite H2, bus_flat_map_entry_actions.
Qed.

Lemma remote_player_is_translated_witness :
  let player := length (playerObjs joined_world) in
  let w1 := step joined_world (Notify 0 (players_add "s2" (JStr ""))) in
  let w2 := step w1 (Notify 0 (player_change "s2" [name_is "Carol"])) in
  since joined_world w1 = [Attach (player_onChange_slot player)]
  ∧ since w1 w2
    = flat_map (entry_actions player "s2" (myUserId joined_world))
        [name_is "Carol"]
  ∧ bus (since w1 w2) = flat_map (entry_events player "s2") [name_is "Carol"].
Proof.
  apply (remote_player_is_translated joined_world 0
           (rooms joined_world !!! 0) "s2" (JStr "") [name_is "Carol"]);
    vm_compute; try reflexivity.
  discriminate.
Defined.

Example carol_joins :
  bus (since (step joined_world (Notify 0 (players_add "s2" (JStr ""))))
         (run joined_world
            [Notify 0 (players_add "s2" (JStr ""));
             Notify 0 (player_change "s2" [name_is "Carol"])]))
  = [PLAYER_UPDATED "name" (JStr "Carol") "s2"; PLAYER_JOINED 0 "s2"].
Proof. vm_compute. reflexivity. Qed.

(** ** Tables and seats *)

Lemma tables_add_step w rid r key :
  rooms w !! rid = Some r → tables_onAdd_set r = true →
  let w' := step w (Notify rid (tables_add key)) in
  let table := length (tableObjs w) in
  rooms w'
  = alter (λ r, set_tables (<[key := table]> (tables r)) r) rid (rooms w)
  ∧ tableObjs w' = tableObjs w ++ [mkTable [] (Some key) (Some key)]
  ∧ trace w'
    = trace w ++ [Attach (connectedUser_onAdd_slot table);
                  Attach (connectedUser_onRemove_slot table)].
Proof.
  intros Hrid Hset. simpl. unfold step.
  rewrite (notify_deliver _ _ _ _ Hrid). unfold deliver. run_m.
  rewrite (list_lookup_total_correct _ _ _ Hrid), Hset. simpl.
  unfold tables_onAdd. run_m. simpl.
  repeat split; try done.
  - rewrite list_alter_alter_eq.
    rewrite (alter_app_r_alt _ _ _ (length (tableObjs w))) by done.
    by rewrite Nat.sub_diag.
  - by rewrite <- app_assoc.
Qed.

Lemma seat_step_run w rid r key table t op :
  rooms w !! rid = Some r → tables r !! key = Some table →
  tableObjs w !! table = Some t →
  connectedUser_onAdd t = Some key → connectedUser_onRemove t = Some key →
  let w' := step w (seat_step rid key op) in
  let (events, final) := seat_replay key (connectedUser t) [op] in
  rooms w' = rooms w
  ∧ tableObjs w' !! table
    = Some (mkTable final (Some key) (Some key))
  ∧ trace w' = trace w ++ events.
Proof.
  intros Hrid Hkey Ht Hadd Hrem.
  pose proof (lookup_lt_Some _ _ _ Ht) as Hlt.
  destruct t as [occupants onAdd onRemove]. simpl in Hadd, Hrem. subst.
  destruct op as [item|index]; simpl; unfold step;
    rewrite (notify_deliver _ _ _ _ Hrid); unfold deliver; run_m;
    rewrite (list_lookup_total_correct _ _ _ Hrid), Hkey; simpl;
    rewrite (list_lookup_total_correct _ _ _ Ht); simpl.
  - repeat split; try done.
    by rewrite list_lookup_alter_eq, Ht.
  - destruct (occupants !! index) as [item|] eqn:Hi; simpl.
    + repeat split; try done. by rewrite list_lookup_alter_eq, Ht.
    + repeat split; try done. by rewrite app_nil_r.
Qed.

Lemma seat_replay_cons key occupants op ops :
  seat_replay key occupants (op :: ops)
  = let (e1, o1) := seat_replay key occupants [op] in
    let (e2, o2) := seat_replay key o1 ops in
    (e1 ++ e2, o2).
Proof.
  destruct op as [item|index]; simpl.
  - by destruct (seat_replay key (occupants ++ [item]) ops).
  - destruct (occupants !! index); simpl;
      by destruct (seat_replay key _ ops).
Qed.

Lemma seat_steps_run ops : ∀ w rid r key table t,
  rooms w !! rid = Some r → tables r !! key = Some table →
  tableObjs w !! table = Some t →
  connectedUser_onAdd t = Some key → connectedUser_onRemove t = Some key →
  let w' := run w (map (seat_step rid key) ops) in
  trace w' = trace w ++ (seat_replay key (connectedUser t) ops).1
  ∧ connectedUser <$> tableObjs w' !! table
    = Some (seat_replay key (connectedUser t) ops).2.
Proof.
  induction ops as [|op ops IH]; intros w rid r key table t Hrid Hkey Ht Ha Hr.
  - simpl. by rewrite app_nil_r, Ht.
  - cbn [map run foldl]. rewrite seat_replay_cons.
    pose proof (seat_step_run w rid r key table t op Hrid Hkey Ht Ha Hr)
      as H1. cbv zeta in H1.
    destruct (seat_replay key (connectedUser t) [op]) as [e1 o1].
    destruct H1 as (Hrooms & Htable & Htrace).
    set (w1 := step w (seat_step rid key op)) in *.
    rewrite <- Hrooms in Hrid.
    destruct (IH w1 rid r key table _ Hrid Hkey Htable eq_refl eq_refl)
      as [IHt IHo].
    simpl in IHt, IHo. fold (run w1 (map (seat_step rid key) ops)).
    destruct (seat_replay key o1 ops) as [e2 o2]. simpl in *.
    rewrite IHt, IHo, Htrace. by rewrite <- app_assoc.
Qed.

(** X10. Seat events mirror the occupancy of a table. When a table is added
    under a key to a room whose table listener is installed, the add
    attaches the two seat listeners and emits nothing; then, for any
    sequence of seat changes of that table, every occupant that sits down
    emits one [ITEM_USER_ADDED] and every removal at an occupied index one
    [ITEM_USER_REMOVED], in order, each carrying the occupant concerned, the
    table's key and the item type [CHAIR]; a removal at an index nobody
    occupies emits nothing. The replica ends with the occupants the events
    account for. *)
Theorem seat_events_mirror_occupancy w rid r key ops :
  rooms w !! rid = Some r → tables_onAdd_set r = true →
  let table := length (tableObjs w) in
  let w1 := step w (Notify rid (tables_add key)) in
  let w2 := run w1 (map (seat_step rid key) ops) in
  since w w1 = [Attach (connectedUser_onAdd_slot table);
                Attach (connectedUser_onRemove_slot table)]
  ∧ since w1 w2 = (seat_replay key [] ops).1
  ∧ connectedUser <$> tableObjs w2 !! table
    = Some (seat_replay key [] ops).2.
Proof.
  intros Hrid Hset table w1 w2.
  destruct (tables_add_step w rid r key Hrid Hset) as (Hr & Ht & Htr).
  fold w1 in Hr, Ht, Htr. fold table in Hr, Htr.
  split; [by apply since_app|].
  destruct (seat_steps_run ops w1 rid
              (set_tables (<[key := table]> (tables r)) r) key table
              (mkTable [] (Some key) (Some key))) as [H1 H2]; try done.
  - by rewrite Hr, list_lookup_alter_eq, Hrid.
  - simpl. apply lookup_insert_eq.
  - rewrite Ht. by apply list_lookup_middle.
  - split; [by apply since_app|done].
Qed.

Lemma seat_events_mirror_occupancy_witness :
  let ops := [Sit (JStr "s2"); Sit (JStr "s3"); Leave 5; Leave 0] in
  let table := length (tableObjs joined_world) in
  let w1 := step joined_world (Notify 0 (tables_add "t1")) in
  let w2 := run w1 (map (seat_step 0 "t1") ops) in
  since joined_world w1
  = [Attach (connectedUser_onAdd_slot table);
     Attach (connectedUser_onRemove_slot table)]
  ∧ since w1 w2 = (seat_replay "t1" [] ops).1
  ∧ connectedUser <$> tableObjs w2 !! table
    = Some (seat_replay "t1" [] ops).2.
Proof.
  apply (seat_events_mirror_occupancy joined_world 0
           (rooms joined_world !!! 0) "t1");
    vm_compute; reflexivity.
Defined.

Example two_sit_one_leaves :
  seat_replay "t1" [] [Sit (JStr "s2"); Sit (JStr "s3"); Leave 5; Leave 0]
  = ([Emit (ITEM_USER_ADDED (JStr "s2") "t1" CHAIR);
      Emit (ITEM_USER_ADDED (JStr "s3") "t1" CHAIR);
      Emit (ITEM_USER_REMOVED (JStr "s2") "t1" CHAIR)],
     [JStr "s3"]).
Proof. reflexivity. Qed.

(** ** The root component *)

(** X11. When the root component shows what. The table dialog is shown
    exactly when a character is selected and the table dialog is open; the
    navigation and the welcome toast exactly when a character is selected
    and the table dialog is closed, and the video connection dialog exactly
    when, in addition, no webcam is connected. The entry, sign-up and
    sign-in dialogs are shown exactly when no character is selected and the
    entering process is [ENTRY], [SIGNUP] or [LOGIN] respectively, and the
    character selection dialog exactly when no character is selected and
    the entering process is none of the three. Nothing is shown twice, and
    the navigation comes first and the welcome toast last. *)
Theorem App_shows_each_element_when characterSelected tableDialogOpen
    videoConnected enteringProcess :
  let page :=
    App.App characterSelected tableDialogOpen videoConnected enteringProcess
  in
  (App.TableDialog ∈ page
   ↔ characterSelected = true ∧ tableDialogOpen = true)
  ∧ (App.NavigationContainer ∈ page
     ↔ characterSelected = true ∧ tableDialogOpen = false)
  ∧ (App.WelcomeToast ∈ page
     ↔ characterSelected = true ∧ tableDialogOpen = false)
  ∧ (App.VideoConnectionDialog ∈ page
     ↔ characterSelected = true ∧ tableDialogOpen = false
       ∧ videoConnected = false)
  ∧ (App.EntryDialog ∈ page
     ↔ characterSelected = false ∧ enteringProcess = App.ENTRY)
  ∧ (App.SignUpDialog ∈ page
     ↔ characterSelected = false ∧ enteringProcess = App.SIGNUP)
  ∧ (App.SignInDialog ∈ page
     ↔ characterSelected = false ∧ enteringProcess = App.LOGIN)
  ∧ (App.CharacterSelectionDialog ∈ page
     ↔ characterSelected = false ∧ enteringProcess ≠ App.ENTRY
       ∧ enteringProcess ≠ App.SIGNUP ∧ enteringProcess ≠ App.LOGIN)
  ∧ NoDup page
  ∧ (App.NavigationContainer ∈ page →
     head page = Some App.NavigationContainer
     ∧ last page = Some App.WelcomeToast).
Proof.
  destruct characterSelected, tableDialogOpen, videoConnected,
    enteringProcess; simpl;
    rewrite ?NoDup_cons, ?elem_of_cons, ?elem_of_nil;
    repeat split; try (by apply NoDup_nil);
    intuition (try congruence; try discriminate).
Qed.

Lemma App_shows_each_element_when_witness :
  head (App.App true false false App.ENTRY) = Some App.NavigationContainer
  ∧ last (App.App true false false App.ENTRY) = Some App.WelcomeToast.
Proof.
  destruct (App_shows_each_element_when true false false App.ENTRY)
    as (_ & Hnav & _ & _ & _ & _ & _ & _ & _ & Horder).
  apply Horder, Hnav. split; reflexivity.
Defined.

(** ** The sign-up dialog *)

(** X12. Submitting the sign-up form clears the three error flags and sets them
    anew: the id flag exactly when the id is empty, the password flag
    exactly when the password is empty, the id-taken flag never. The request
    is posted exactly when the password is not empty, with the id and the
    password typed in; so an empty id with a password is flagged and posted
    all the same. The fields themselves are left as typed. *)
Theorem submit_flags_and_posts (s : SignUpDialog.State) :
  let s' := (SignUpDialog.onSubmitHandler s).1 in
  let effects := (SignUpDialog.onSubmitHandler s).2 in
  SignUpDialog.userIdFieldEmpty s' = String.eqb (SignUpDialog.userId s) ""
  ∧ SignUpDialog.pwFieldEmpty s' = String.eqb (SignUpDialog.password s) ""
  ∧ SignUpDialog.userIdFieldWrong s' = false
  ∧ SignUpDialog.userId s' = SignUpDialog.userId s
  ∧ SignUpDialog.password s' = SignUpDialog.password s
  ∧ SignUpDialog.posts effects
    = if String.eqb (SignUpDialog.password s) "" then []
      else [("/auth/signup",
             JObj [("userId", JStr (SignUpDialog.userId s));
                   ("password", JStr (SignUpDialog.password s))])].
Proof.
  destruct s as [u p sh pe ue uw]. unfold SignUpDialog.onSubmitHandler.
  simpl. destruct (String.eqb u ""), (String.eqb p ""); simpl; done.
Qed.

Example empty_id_is_posted :
  let s := SignUpDialog.setPassword "secret" SignUpDialog.initial in
  SignUpDialog.posts (SignUpDialog.onSubmitHandler s).2
  = [("/auth/signup",
      JObj [("userId", JStr ""); ("password", JStr "secret")])]
  ∧ SignUpDialog.userIdFieldEmpty (SignUpDialog.onSubmitHandler s).1 = true.
Proof. done. Qed.

Section SignUpResponse.
Variable string_to_number : string → option Z.
Variable type_error_message : string.

(** X13. When the sign-up request settles, the store is told that the user has
    signed up (sign-up off, signed-up on, sign-in on, in this order) exactly
    when the response carries [data.status] loosely equal to 200, and not
    told anything otherwise. The id-taken flag is raised by every failure:
    a rejected request, whatever its error, and also a fulfilled one whose
    response has no [data] to read the status from; a fulfilled request with
    any readable status leaves the dialog state as it was. *)
Theorem settle_signs_up_or_flags o s :
  let result :=
    SignUpDialog.settle string_to_number type_error_message o s in
  SignUpDialog.dispatches result.2
  = match o with
    | SignUpDialog.Fulfilled response =>
        match destructure response "data" with
        | Some data =>
            match destructure data "status" with
            | Some status =>
                if SignUpDialog.loose_eq_200 string_to_number status
                then [SignUpDialog.setSignUp false;
                      SignUpDialog.setSignedUp true;
                      SignUpDialog.setSignIn true]
                else []
            | None => []
            end
        | None => []
        end
    | SignUpDialog.Rejected _ => []
    end
  ∧ result.1
    = match o with
      | SignUpDialog.Fulfilled response =>
          match SignUpDialog.on_response string_to_number response with
          | Some _ => s
          | None => SignUpDialog.setUserIdFieldWrong true s
          end
      | SignUpDialog.Rejected _ => SignUpDialog.setUserIdFieldWrong true s
      end.
Proof.
  unfold SignUpDialog.settle, SignUpDialog.on_response.
  destruct o as [response|error].
  - destruct (destructure response "data") as [data|]; simpl; [|done].
    destruct (destructure data "status") as [status|]; simpl; [|done].
    by destruct (SignUpDialog.loose_eq_200 _ status).
  - unfold SignUpDialog.on_error.
    by destruct (destructure error "message").
Qed.
End SignUpResponse.

Example conflict_and_network_error_alike :
  let settle := SignUpDialog.settle (λ _, None) "" in
  let conflict :=
    SignUpDialog.Rejected
      (JObj [("message", JStr "Request failed with status code 409")]) in
  let offline :=
    SignUpDialog.Rejected (JObj [("message", JStr "Network Error")]) in
  (settle conflict SignUpDialog.initial).1
  = (settle offline SignUpDialog.initial).1
  ∧ SignUpDialog.userIdFieldWrong (settle offline SignUpDialog.initial).1
    = true.
Proof. done. Qed.

(** ** Joins of custom rooms *)

(** X14. With the lobby joined, a join by id or the creation of a custom room
    that resolves makes the new room active, records its session id and
    creates the WebRTC instance with it, and registers the listeners on it,
    exactly as a public join does; but it records no user id: [myUserId]
    keeps the value of the last public join, or stays unset. *)
Theorem custom_join_records_no_user_id w i k sid :
  pending w !! i = Some k →
  k = K_joinCustomById ∨ k = K_createCustom →
  lobby w = Some LobbyRoom →
  let w' := step w (Settle i (Fulfilled sid)) in
  room w' = Some (length (rooms w))
  ∧ mySessionId w' = Some sid
  ∧ webRTC w' = Some (mkWebRTC (Some sid))
  ∧ myUserId w' = myUserId w
  ∧ rooms w' = rooms w ++ [init_room (new_room sid)]
  ∧ since w w'
    = WriteRoom (length (rooms w))
      :: init_trace (length (rooms w)) sid (myUserId w).
Proof.
  intros Hi Hk Hl. simpl. unfold step, step_body. run_m. rewrite Hi. simpl.
  destruct Hk as [-> | ->]; simpl;
    unfold alloc_room, joinCustomById_resume, createCustom_resume; run_m;
    simpl;
    (erewrite initialize_run by (simpl; done)); simpl;
    rewrite list_lookup_total_middle by done;
    rewrite (alter_app_r_alt _ _ _ (length (rooms w))) by done;
    rewrite Nat.sub_diag; simpl;
    (repeat split; try done);
    apply since_app; simpl;
    rewrite list_lookup_total_middle by done;
    by rewrite <- app_assoc.
Qed.

Lemma custom_join_records_no_user_id_witness :
  let w := step lobby_joined (Invoke (call_joinCustomById "room-1" None)) in
  let w' := step w (Settle 0 (Fulfilled "s9")) in
  room w' = Some (length (rooms w))
  ∧ mySessionId w' = Some "s9"
  ∧ webRTC w' = Some (mkWebRTC (Some "s9"))
  ∧ myUserId w' = myUserId w
  ∧ rooms w' = rooms w ++ [init_room (new_room "s9")]
  ∧ since w w'
    = WriteRoom (length (rooms w))
      :: init_trace (length (rooms w)) "s9" (myUserId w).
Proof.
  apply (custom_join_records_no_user_id
           (step lobby_joined (Invoke (call_joinCustomById "room-1" None)))
           0 K_joinCustomById "s9");
    [reflexivity | by left | reflexivity].
Defined.

(** ** Signals of the local player *)

(** X15. The ready-to-connect and video-connected signals are relayed on the
    local bus whether or not a room is joined: each call emits its local
    event exactly once and returns normally, and sends its message, without
    payload, to the active room if there is one. *)
Theorem lifecycle_signals_always_relayed w :
  returns (readyToConnect w) = true
  ∧ returns (videoConnected w) = true
  ∧ bus (since w (world_of (readyToConnect w))) = [MY_PLAYER_READY]
  ∧ bus (since w (world_of (videoConnected w))) = [MY_PLAYER_VIDEO_CONNECTED]
  ∧ sent (since w (world_of (readyToConnect w)))
    = match room w with
      | Some rid => [(rid, READY_TO_CONNECT, JUndefined)]
      | None => []
      end
  ∧ sent (since w (world_of (videoConnected w)))
    = match room w with
      | Some rid => [(rid, VIDEO_CONNECTED, JUndefined)]
      | None => []
      end.
Proof.
  destruct w as [room0 ? ? ? ? ? ? ? ? ? trace0].
  unfold readyToConnect, videoConnected.
  destruct room0 as [rid|]; run_w;
    repeat split;
    (erewrite since_app
       by (cbn [trace]; rewrite <- ?app_assoc; reflexivity));
    reflexivity.
Qed.

(** X16. Along every run of the event loop, once a listener of the class is
    installed, dropping a peer sends the disconnect-stream message with the
    peer's id to the active room and then deletes the peer's video stream
    locally (not its on-called stream). *)
Theorem dropping_a_peer steps id :
  let w := run boot steps in
  has_listener w = true →
  ∃ active,
    room w = Some active
    ∧ since w (world_of (playerStreamDisconnect id w))
      = [Send active DISCONNECT_STREAM (JObj [("clientId", JStr id)]);
         RTC (deleteVideoStream (JStr id))].
Proof.
  intros w Hl.
  destruct (has_listener_identified w) as (_ & _ & [x Hx] & active & Ha & _);
    [apply Inv_run, Inv_boot|done|].
  exists active. split; [done|].
  unfold playerStreamDisconnect. run_m. rewrite Ha. simpl. rewrite Hx.
  simpl. by since_app.
Qed.

Lemma dropping_a_peer_witness :
  ∃ active,
    room (run boot join_as_s1) = Some active
    ∧ since (run boot join_as_s1)
        (world_of (playerStreamDisconnect "s2" (run boot join_as_s1)))
      = [Send active DISCONNECT_STREAM (JObj [("clientId", JStr "s2")]);
         RTC (deleteVideoStream (JStr "s2"))].
Proof.
  apply (dropping_a_peer join_as_s1 "s2"). vm_compute. reflexivity.
Defined.

(** ** Change events carry the key of their player *)

Lemma keyed_alter_room f rid w :
  (∀ r, players (f r) ⊆ players r) →
  keyed w → keyed (set_rooms (alter f rid (rooms w)) w).
Proof.
  intros Hf Hw rid' r' key player Hr' Hk. simpl in *.
  destruct (decide (rid = rid')) as [<-|Hne].
  - rewrite list_lookup_alter_eq in Hr'.
    destruct (rooms w !! rid) as [r|] eqn:Hr; [|done].
    simpl in Hr'. injection Hr' as <-.
    eapply (Hw rid r); [done|].
    by eapply lookup_weaken; [|apply Hf].
  - rewrite list_lookup_alter_ne in Hr' by done. by eapply Hw.
Qed.

Lemma keyed_alter_player f player w :
  (∀ x, onChange (f x) = onChange x) →
  keyed w → keyed (set_playerObjs (alter f player (playerObjs w)) w).
Proof.
  intros Hf Hw rid r key p Hr Hk. simpl in *.
  destruct (Hw rid r key p Hr Hk) as [Hlt Hcap].
  rewrite length_alter. split; [done|]. intros obj captured Hobj Hc.
  destruct (decide (player = p)) as [<-|Hne].
  - rewrite list_lookup_alter_eq in Hobj.
    destruct (playerObjs w !! player) as [old|] eqn:Hold; [|done].
    simpl in Hobj. injection Hobj as <-. rewrite Hf in Hc.
    by eapply Hcap.
  - rewrite list_lookup_alter_ne in Hobj by done. by eapply Hcap.
Qed.

Lemma keyed_alloc_room sid w :
  keyed w → keyed (set_rooms (rooms w ++ [new_room sid]) w).
Proof.
  intros Hw rid r key p Hr Hk. simpl in *.
  apply lookup_app_Some in Hr as [Hr|[_ Hr]]; [by eapply Hw|].
  destruct (rid - length (rooms w)) as [|n]; simpl in Hr; [|done].
  injection Hr as <-. simpl in Hk. by rewrite lookup_empty in Hk.
Qed.

(** The add of a player, with or without the listener. *)
Lemma keyed_players_add rid key name0 listener w :
  listener = None ∨ listener = Some key →
  keyed w →
  keyed
    (set_playerObjs (playerObjs w ++ [mkPlayer name0 listener])
       (set_rooms
          (alter (λ r, set_players
                         (<[key := length (playerObjs w)]> (players r)) r)
             rid (rooms w)) w)).
Proof.
  intros Hl Hw rid' r' key' p Hr' Hk. simpl in *.
  rewrite length_app. simpl.
  assert (p = length (playerObjs w) ∧ key' = key
          ∨ ∃ r, rooms w !! rid' = Some r ∧ players r !! key' = Some p)
    as [[-> ->]|(r & Hr & Hp)].
  { destruct (decide (rid = rid')) as [<-|Hne].
    - rewrite list_lookup_alter_eq in Hr'.
      destruct (rooms w !! rid) as [r|] eqn:Hr; [|done].
      simpl in Hr'. injection Hr' as <-. simpl in Hk.
      destruct (decide (key = key')) as [<-|Hkey].
      + rewrite lookup_insert_eq in Hk. injection Hk as <-. by left.
      + rewrite lookup_insert_ne in Hk by done. right. eauto.
    - rewrite list_lookup_alter_ne in Hr' by done. right. eauto. }
  - split; [lia|]. intros obj captured Hobj Hc.
    rewrite list_lookup_middle in Hobj by done. injection Hobj as <-.
    simpl in Hc. destruct Hl as [->| ->]; congruence.
  - destruct (Hw rid' r key' p Hr Hp) as [Hlt Hcap]. split; [lia|].
    intros obj captured Hobj Hc. rewrite lookup_app_l in Hobj by done.
    by eapply Hcap.
Qed.

Ltac pres_keyed :=
  pres;
  try (unfold emit, dispatch, console_log, act, suspend, modify_room,
         modify_player, modify_table;
       match goal with
       | |- preserves _ (modify _) =>
           apply preserves_modify; intros;
           first [ assumption
                 | by apply keyed_alter_room
                 | by apply keyed_alter_player
                 | by (apply keyed_alter_player;
                       [apply apply_changes_onChange|])
                 | by (apply keyed_alter_room;
                       [intros; apply delete_subseteq|]) ]
       end).

Lemma keyed_initialize : preserves keyed initialize.
Proof.
  unfold initialize, lobby_leave, attach_room, room_onMessage,
    room_onStateChange.
  pres_keyed.
Qed.

Lemma keyed_message_callback m payload :
  preserves keyed (message_callback m payload).
Proof.
  destruct m; simpl;
    unfold on_STOP_TABLE_TALK, on_ADD_CHAT_MESSAGE, on_DISCONNECT_STREAM,
      on_RECEIVE_DM, on_SEND_ROOM_DATA, rtc;
    pres_keyed.
Qed.

Lemma keyed_deliver rid n : preserves keyed (deliver rid n).
Proof.
  destruct n.
  - (* players_add *)
    intros w Hw. unfold deliver. run_m.
    destruct (players_onAdd_set (rooms w !!! rid)).
    + rewrite players_onAdd_run. simpl.
      destruct (decide (mySessionId w = Some key)).
      * apply (keyed_players_add rid key name0 None w); auto.
      * simpl.
        rewrite (alter_app_r_alt _ _ _ (length (playerObjs w))) by done.
        rewrite Nat.sub_diag. simpl.
        apply (keyed_players_add rid key name0 (Some key) w); auto.
    + apply (keyed_players_add rid key name0 None w); auto.
  - unfold deliver. apply preserves_bind; [pres|intros r].
    unfold player_onChange. pres_keyed.
  - unfold deliver. apply preserves_bind; [pres|intros r].
    unfold players_onRemove, rtc. pres_keyed.
  - unfold deliver. apply preserves_bind; [pres|intros r].
    unfold tables_onAdd. pres_keyed.
  - unfold deliver. apply preserves_bind; [pres|intros r].
    unfold connectedUser_onAdd_listener. pres_keyed.
  - unfold deliver. apply preserves_bind; [pres|intros r].
    unfold connectedUser_onRemove_listener. pres_keyed.
  - unfold deliver. apply preserves_bind; [pres|intros r].
    unfold chatMessages_onAdd. pres_keyed.
  - unfold deliver. apply preserves_bind; [pres|intros r].
    pres_keyed. apply keyed_message_callback.
  - unfold deliver. apply preserves_bind; [pres|intros r].
    unfold on_stateChange. pres_keyed.
Qed.

Lemma keyed_step s w : keyed w → keyed (step w s).
Proof.
  intros Hw. unfold step.
  assert (keyed (world_of (step_body s w))) as H.
  { destruct s as [c|i s|rid n|b]; simpl.
    - by apply invoke_frame.
    - run_m. destruct (pending w !! i) as [k|]; [|done]. simpl.
      destruct s as [sid|]; [|done].
      destruct k; simpl; try done;
        unfold alloc_room, joinOrCreatePublic_resume, joinCustomById_resume,
          createCustom_resume; run_m; simpl;
        apply keyed_initialize;
        by apply (keyed_alloc_room sid w).
    - run_m. destruct (decide _); [|done]. by apply keyed_deliver.
    - done. }
  by destruct (step_body s w).
Qed.

Lemma keyed_run steps : ∀ w, keyed w → keyed (run w steps).
Proof.
  induction steps as [|s steps IH]; intros w Hw; [done|].
  simpl. by apply IH, keyed_step.
Qed.

Lemma keyed_boot : keyed boot.
Proof. intros rid r key p Hr. by destruct rid. Qed.

(** X17. Along every run of the event loop, whatever was added, removed, joined
    or delivered before, a change notification for the player registered
    under a key in a room is translated with exactly that key: if the
    player carries a change listener, the events and store actions of the
    notification are those of its changed fields for that key, in order;
    if it carries none (the local player, or a room that was never
    initialised), nothing happens. *)
Theorem change_events_carry_their_key steps rid r key player obj changes :
  let w := run boot steps in
  rooms w !! rid = Some r → players r !! key = Some player →
  playerObjs w !! player = Some obj →
  since w (step w (Notify rid (player_change key changes)))
  = match onChange obj with
    | Some _ => flat_map (entry_actions player key (myUserId w)) changes
    | None => []
    end.
Proof.
  intros w Hr Hk Hobj. apply since_app.
  rewrite (player_change_step w rid r key player obj changes Hr Hk Hobj).
  destruct (onChange obj) as [captured|] eqn:Hc; [|done].
  destruct (keyed_run steps boot keyed_boot rid r key player Hr Hk)
    as [_ Hcap].
  by rewrite (Hcap obj captured Hobj Hc).
Qed.

Lemma change_events_carry_their_key_witness :
  since (run boot s2_is_alice)
    (step (run boot s2_is_alice)
       (Notify 0 (player_change "s2" [name_is "Bob"])))
  = match onChange (playerObjs (run boot s2_is_alice) !!! 0) with
    | Some _ =>
        flat_map
          (entry_actions 0 "s2" (myUserId (run boot s2_is_alice)))
          [name_is "Bob"]
    | None => []
    end.
Proof.
  apply (change_events_carry_their_key s2_is_alice 0
           (rooms (run boot s2_is_alice) !!! 0) "s2" 0);
    vm_compute; reflexivity.
Defined.

End Further.
